(** * Hyra, amd64 machine-dependent bring-up and the kernel log

    A shallow embedding of [sys/arch/amd64/amd64/machdep.c] and
    [sys/kern/kern_syslog.c], and the properties of them that the
    design document states.

    Conventions.  A C unsigned integer of width [w] is a [Z] in
    [0, 2^w); every operation that could leave that range has its
    wrap-around written out.  Pointers are [Z] addresses and [NULL] is
    [0].  A byte in memory is a [Byte.byte].  Calls into other
    translation units (the page-frame allocator, the descriptor-table
    code, the ACPI parser, the terminal) are either parameters of a
    [Section] or recorded as events in a trace, so that what was called,
    with what and in which order stays observable. *)

From Stdlib Require Import ZArith Lia Bool String.
From stdpp Require Import base option list gmap.

Local Open Scope Z_scope.

(** ** sys/cdefs.h *)

Module Cdefs.

(** Modelled from the spec: the bit macros of [sys/cdefs.h], which is
    not part of the sources at hand.  [__BIT(n)] is the word with only
    bit [n] set and [__TEST(a, mask)] tells whether [a] and [mask] share
    a set bit (the design document speaks of capability bits being set
    and of control bits being set or cleared). *)
Definition __BIT (n : Z) : Z := Z.shiftl 1 n.

Definition __TEST (a mask : Z) : bool := negb (Z.land a mask =? 0).

(** Bitwise complement of a 64-bit operand. *)
Definition not64 (x : Z) : Z := Z.lxor x (Z.ones 64).

Definition NULL : Z := 0.

Lemma __BIT_testbit (n i : Z) :
  0 <= n -> Z.testbit (__BIT n) i = (i =? n).
Proof.
  intros Hn. unfold __BIT. rewrite Z.shiftl_1_l.
  destruct (Z.eqb_spec i n) as [->|Hne].
  - now apply Z.pow2_bits_true.
  - apply Z.pow2_bits_false. congruence.
Qed.

Lemma __TEST_BIT (a n : Z) :
  0 <= n -> __TEST a (__BIT n) = Z.testbit a n.
Proof.
  intros Hn. unfold __TEST.
  destruct (Z.testbit a n) eqn:Hb.
  - apply negb_true_iff, Z.eqb_neq. intros H0.
    assert (Hc : Z.testbit (Z.land a (__BIT n)) n = false)
      by (rewrite H0; apply Z.bits_0).
    rewrite Z.land_spec, Hb, __BIT_testbit, Z.eqb_refl in Hc by assumption.
    discriminate.
  - apply negb_false_iff, Z.eqb_eq, Z.bits_inj'. intros i Hi.
    rewrite Z.land_spec, Z.bits_0, __BIT_testbit by assumption.
    destruct (Z.eqb_spec i n) as [->|_].
    + now rewrite Hb.
    + apply andb_false_r.
Qed.

Lemma not64_testbit (x i : Z) :
  0 <= i < 64 -> Z.testbit (not64 x) i = negb (Z.testbit x i).
Proof.
  intros Hi. unfold not64.
  rewrite Z.lxor_spec, Z.ones_spec_low by lia.
  now destruct (Z.testbit x i).
Qed.

End Cdefs.

Export Cdefs.

(** ** Outcomes of code that may stop the machine *)

(** [panic] does not return: whatever follows it in the C text is never
    run.  A computation that may panic yields [Halted] with the message
    instead of a value. *)
Inductive outcome (A : Type) : Type :=
| Ok (a : A)
| Halted (msg : string).
Arguments Ok {A} a.
Arguments Halted {A} msg.

(** ** The Feature Enabler: [is_sse_supported] and the SSE block of
       [processor_init] *)

Module FeatureEnabler.

(** The two control registers the block touches, and the static scratch
    word [reg_tmp] through which it does so. *)
Record ctrl := Ctrl { cr0 : Z; cr4 : Z; reg_tmp : Z }.

(** [is_sse_supported]; [edx] is what [__CPUID(1, ...)] left in EDX. *)
Definition is_sse_supported (edx : Z) : bool :=
  __TEST edx (__BIT 25) && __TEST edx (__BIT 26).

(** The argument of [panic]; the C literal ends in one newline byte. *)
Definition sse_panic_msg : string :=
  String.append "SSE/SSE2 not supported!"
    (String (Ascii.ascii_of_nat 10) EmptyString).

(** The [if (is_sse_supported()) { ... } else { panic(...) }] of
    [processor_init], statement by statement. *)
Definition enable_sse (edx : Z) (c : ctrl) : outcome ctrl :=
  if is_sse_supported edx then
    (* Enable SSE/SSE2 *)
    let t := cr0 c in
    let t := Z.land t (not64 (__BIT 2)) in
    let t := Z.lor t (__BIT 1) in
    let c := {| cr0 := t; cr4 := cr4 c; reg_tmp := t |} in
    (* Enable FXSAVE/FXRSTOR *)
    let t := cr4 c in
    let t := Z.lor t (Z.shiftl 3 9) in
    Ok {| cr0 := cr0 c; cr4 := t; reg_tmp := t |}
  else
    Halted sse_panic_msg.

(** What "floating point is enabled in [c'], starting from [c]" means:
    CR0.EM (bit 2) clear, CR0.MP (bit 1) set, CR4.OSFXSR (bit 9) and
    CR4.OSXMMEXCPT (bit 10) set, and no other bit of the low 64 of
    either register changed. *)
Definition fp_enabled (c c' : ctrl) : Prop :=
  Z.testbit (cr0 c') 2 = false /\
  Z.testbit (cr0 c') 1 = true /\
  Z.testbit (cr4 c') 9 = true /\
  Z.testbit (cr4 c') 10 = true /\
  (forall i, 0 <= i < 64 -> i <> 1 -> i <> 2 ->
             Z.testbit (cr0 c') i = Z.testbit (cr0 c) i) /\
  (forall i, 0 <= i < 64 -> i <> 9 -> i <> 10 ->
             Z.testbit (cr4 c') i = Z.testbit (cr4 c) i).

Lemma is_sse_supported_bits (edx : Z) :
  is_sse_supported edx = Z.testbit edx 25 && Z.testbit edx 26.
Proof.
  unfold is_sse_supported. now rewrite !__TEST_BIT by lia.
Qed.

Lemma shiftl_3_9_testbit (i : Z) :
  0 <= i -> Z.testbit (Z.shiftl 3 9) i = (i =? 9) || (i =? 10).
Proof.
  intros Hi. rewrite Z.shiftl_spec by assumption.
  destruct (Z.eqb_spec i 9) as [->|H9]; [reflexivity|].
  destruct (Z.eqb_spec i 10) as [->|H10]; [reflexivity|].
  destruct (Z_lt_le_dec (i - 9) 0) as [Hlt|Hge].
  - now apply Z.testbit_neg_r.
  - replace (i - 9) with (Z.succ (Z.succ (i - 11))) by lia.
    change 3 with (2 * (2 * 0 + 1) + 1).
    rewrite Z.testbit_odd_succ by lia.
    rewrite Z.testbit_odd_succ by lia.
    apply Z.bits_0.
Qed.

Local Arguments Z.testbit : simpl never.

Lemma enable_sse_fp_enabled (edx : Z) (c c' : ctrl) :
  enable_sse edx c = Ok c' -> fp_enabled c c'.
Proof.
  unfold enable_sse. destruct (is_sse_supported edx); [|discriminate].
  intros [= <-]. unfold fp_enabled; cbn [cr0 cr4].
  repeat split.
  - rewrite Z.lor_spec, Z.land_spec, not64_testbit, !__BIT_testbit by lia.
    cbn. now destruct (Z.testbit (cr0 c) 2).
  - rewrite Z.lor_spec, !__BIT_testbit by lia. cbn. apply orb_true_r.
  - rewrite Z.lor_spec, shiftl_3_9_testbit by lia. apply orb_true_r.
  - rewrite Z.lor_spec, shiftl_3_9_testbit by lia. apply orb_true_r.
  - intros i Hi H1 H2.
    rewrite Z.lor_spec, Z.land_spec, not64_testbit, !__BIT_testbit by lia.
    destruct (Z.eqb_spec i 2); [contradiction|].
    destruct (Z.eqb_spec i 1); [contradiction|].
    cbn. now rewrite andb_true_r, orb_false_r.
  - intros i Hi H9 H10.
    rewrite Z.lor_spec, shiftl_3_9_testbit by lia.
    destruct (Z.eqb_spec i 9); [contradiction|].
    destruct (Z.eqb_spec i 10); [contradiction|].
    cbn. apply orb_false_r.
Qed.

(** C2.  For every value [edx] of the feature-flag word and every
    content of the control registers, the Feature Enabler enables
    floating point (clears CR0 bit 2, sets CR0 bit 1, sets CR4 bits 9
    and 10, leaves the other bits alone) if and only if bits 25 and 26
    of [edx] are both set, and it halts the system if and only if they
    are not. *)
Theorem enable_sse_iff_both_bits (edx : Z) (c : ctrl) :
  ((exists c', enable_sse edx c = Ok c' /\ fp_enabled c c') <->
   (Z.testbit edx 25 = true /\ Z.testbit edx 26 = true)) /\
  (enable_sse edx c = Halted sse_panic_msg <->
   ~ (Z.testbit edx 25 = true /\ Z.testbit edx 26 = true)).
Proof.
  pose proof (is_sse_supported_bits edx) as Hs.
  pose proof (enable_sse_fp_enabled edx c) as Hfp.
  unfold enable_sse in *.
  destruct (is_sse_supported edx); symmetry in Hs.
  - apply andb_true_iff in Hs. split; split.
    + intros _. exact Hs.
    + intros _. eexists. split; [reflexivity|]. now apply Hfp.
    + discriminate.
    + intros Hn. now destruct Hn.
  - apply andb_false_iff in Hs. split; split.
    + intros (c' & Hc & _). discriminate.
    + intros [H25 H26]. destruct Hs; congruence.
    + intros _ [H25 H26]. destruct Hs; congruence.
    + reflexivity.
Qed.

End FeatureEnabler.

(** ** The Interrupt Vector Installer and the Bring-up Sequencer:
       [interrupts_init] and [pre_init] *)

Module Bringup.

(** The trap entry points of [machine/trap.h] and the system-call entry
    [syscall_isr]; [ISR(func)] is the address of [func], which is fixed
    at link time, so an entry point is identified by its symbol. *)
Inductive isr : Set :=
| arith_err | nmi | breakpoint_handler | overflow | bound_range | invl_op
| double_fault | invl_tss | segnp | ss_fault | general_prot | page_fault
| syscall_isr.

(** The gate kinds of [machine/idt.h] that [machdep.c] uses. *)
Inductive gate_flags : Set := IDT_TRAP_GATE_FLAGS | IDT_INT_GATE_USER.

Record idt_gate := IdtGate { gate_type : gate_flags; gate_isr : isr; gate_ist : Z }.

(** What the rest of the kernel is asked to do, in the order asked.
    The core is the one executing the call. *)
Inductive event : Set :=
| EvUartTryInit
| EvVmPhyssegInit
| EvVmInit
| EvIdtLoad (core : nat)
| EvGdtLoad (core : nat).

(** The state [pre_init] and [interrupts_init] work on: the function
    static [is_bsp], the global interrupt vector table (vector number to
    gate), the cores whose IDT register points at it, and the log of
    calls made so far, oldest first. *)
Record kernel := Kernel {
  is_bsp : bool;
  g_idt : gmap Z idt_gate;
  idtr : gset nat;
  trace : list event
}.

(** The state at boot: [static bool is_bsp = true], an empty table. *)
Definition boot : kernel :=
  {| is_bsp := true; g_idt := ∅; idtr := ∅; trace := [] |}.

Definition emit (e : event) (k : kernel) : kernel :=
  {| is_bsp := is_bsp k; g_idt := g_idt k; idtr := idtr k;
     trace := trace k ++ [e] |}.

(** Modelled from the spec: [idt_set_desc] of [machine/idt.h], whose
    body is not part of the sources at hand.  The design document gives
    the table as a mapping from vector number to (entry point, gate
    kind) and the installer as "given (vector, gate-kind, entry-point),
    install one dispatch entry": the call overwrites the entry of
    [vec]. *)
Definition idt_set_desc (vec : Z) (type : gate_flags) (f : isr) (ist : Z)
    (k : kernel) : kernel :=
  {| is_bsp := is_bsp k;
     g_idt := <[vec := IdtGate type f ist]> (g_idt k);
     idtr := idtr k; trace := trace k |}.

(** Modelled from the spec: [idt_load], "load the table into the active
    core". *)
Definition idt_load (core : nat) (k : kernel) : kernel :=
  emit (EvIdtLoad core)
    {| is_bsp := is_bsp k; g_idt := g_idt k; idtr := {[core]} ∪ idtr k;
       trace := trace k |}.

Definition ISR (f : isr) : isr := f.

(** [interrupts_init], call by call. *)
Definition interrupts_init (core : nat) (k : kernel) : kernel :=
  let k := idt_set_desc 0x0 IDT_TRAP_GATE_FLAGS (ISR arith_err) 0 k in
  let k := idt_set_desc 0x2 IDT_TRAP_GATE_FLAGS (ISR nmi) 0 k in
  let k := idt_set_desc 0x3 IDT_TRAP_GATE_FLAGS (ISR breakpoint_handler) 0 k in
  let k := idt_set_desc 0x4 IDT_TRAP_GATE_FLAGS (ISR overflow) 0 k in
  let k := idt_set_desc 0x5 IDT_TRAP_GATE_FLAGS (ISR bound_range) 0 k in
  let k := idt_set_desc 0x6 IDT_TRAP_GATE_FLAGS (ISR invl_op) 0 k in
  let k := idt_set_desc 0x8 IDT_TRAP_GATE_FLAGS (ISR double_fault) 0 k in
  let k := idt_set_desc 0xA IDT_TRAP_GATE_FLAGS (ISR invl_tss) 0 k in
  let k := idt_set_desc 0xB IDT_TRAP_GATE_FLAGS (ISR segnp) 0 k in
  let k := idt_set_desc 0xC IDT_TRAP_GATE_FLAGS (ISR ss_fault) 0 k in
  let k := idt_set_desc 0xD IDT_TRAP_GATE_FLAGS (ISR general_prot) 0 k in
  let k := idt_set_desc 0xE IDT_TRAP_GATE_FLAGS (ISR page_fault) 0 k in
  let k := idt_set_desc 0x80 IDT_INT_GATE_USER (ISR syscall_isr) 0 k in
  idt_load core k.

(** [gdt_load(&g_gdtr)]: the calling core loads the global descriptor
    table; the loader itself lives in [machine/gdt.h]. *)
Definition gdt_load (core : nat) (k : kernel) : kernel :=
  emit (EvGdtLoad core) k.

(** [pre_init], as run by [core]. *)
Definition pre_init (core : nat) (k : kernel) : kernel :=
  let k :=
    if is_bsp k then
      let k := {| is_bsp := false; g_idt := g_idt k; idtr := idtr k;
                  trace := trace k |} in
      let k := emit EvUartTryInit k in
      let k := emit EvVmPhyssegInit k in
      emit EvVmInit k
    else k in
  let k := interrupts_init core k in
  gdt_load core k.

(** Successive calls of [pre_init], one per entry of [cores], each
    returning before the next starts. *)
Definition pre_init_all (cores : list nat) (k : kernel) : kernel :=
  foldl (fun k core => pre_init core k) k cores.

(** The vectors [interrupts_init] fills, with their gates. *)
Definition installed_gates : list (Z * idt_gate) :=
  [ (0x0, IdtGate IDT_TRAP_GATE_FLAGS arith_err 0);
    (0x2, IdtGate IDT_TRAP_GATE_FLAGS nmi 0);
    (0x3, IdtGate IDT_TRAP_GATE_FLAGS breakpoint_handler 0);
    (0x4, IdtGate IDT_TRAP_GATE_FLAGS overflow 0);
    (0x5, IdtGate IDT_TRAP_GATE_FLAGS bound_range 0);
    (0x6, IdtGate IDT_TRAP_GATE_FLAGS invl_op 0);
    (0x8, IdtGate IDT_TRAP_GATE_FLAGS double_fault 0);
    (0xA, IdtGate IDT_TRAP_GATE_FLAGS invl_tss 0);
    (0xB, IdtGate IDT_TRAP_GATE_FLAGS segnp 0);
    (0xC, IdtGate IDT_TRAP_GATE_FLAGS ss_fault 0);
    (0xD, IdtGate IDT_TRAP_GATE_FLAGS general_prot 0);
    (0xE, IdtGate IDT_TRAP_GATE_FLAGS page_fault 0);
    (0x80, IdtGate IDT_INT_GATE_USER syscall_isr 0) ].

(** *** Properties *)

Lemma interrupts_init_is_bsp core k :
  is_bsp (interrupts_init core k) = is_bsp k.
Proof. reflexivity. Qed.

Lemma interrupts_init_trace core k :
  trace (interrupts_init core k) = trace k ++ [EvIdtLoad core].
Proof. reflexivity. Qed.

Lemma interrupts_init_idtr core k :
  idtr (interrupts_init core k) = {[core]} ∪ idtr k.
Proof. reflexivity. Qed.

(** The table after [interrupts_init]: the thirteen gates over whatever
    was there. *)
Lemma interrupts_init_g_idt core k :
  g_idt (interrupts_init core k) = list_to_map installed_gates ∪ g_idt k.
Proof.
  apply map_eq. intros v. cbn -[union].
  rewrite lookup_union.
  rewrite !lookup_insert.
  repeat case_decide; subst; try discriminate;
    rewrite ?lookup_empty; by destruct (g_idt k !! _).
Qed.

Lemma interrupts_init_lookup core k vec g :
  (vec, g) ∈ installed_gates -> g_idt (interrupts_init core k) !! vec = Some g.
Proof.
  intros Hin. rewrite interrupts_init_g_idt.
  apply lookup_union_Some_l.
  apply elem_of_list_to_map; [|exact Hin].
  apply (bool_decide_unpack _). by vm_compute.
Qed.

Lemma interrupts_init_other core k vec :
  vec ∉ installed_gates.*1 ->
  g_idt (interrupts_init core k) !! vec = g_idt k !! vec.
Proof.
  intros Hnot. rewrite interrupts_init_g_idt, lookup_union_r; [reflexivity|].
  now apply not_elem_of_list_to_map_1.
Qed.

(** Every vector [interrupts_init] fills is one of the 256 of the
    table. *)
Lemma installed_gates_in_range :
  Forall (fun vg => 0 <= vg.1 < 256) installed_gates.
Proof. repeat constructor; cbn; lia. Qed.

(** C8.  Running [interrupts_init] a second time on the same core leaves
    the interrupt vector table, and the set of cores whose IDT register
    points at it, exactly as the first run left them, whatever the table
    held before. *)
Theorem interrupts_init_idempotent (core : nat) (k : kernel) :
  g_idt (interrupts_init core (interrupts_init core k))
    = g_idt (interrupts_init core k) /\
  idtr (interrupts_init core (interrupts_init core k))
    = idtr (interrupts_init core k).
Proof.
  split.
  - rewrite !interrupts_init_g_idt.
    now rewrite (assoc_L (∪)), (idemp_L (∪)).
  - rewrite !interrupts_init_idtr.
    now rewrite (assoc_L (∪)), (idemp_L (∪)).
Qed.

(** What the first call adds to the log before anything else, and what
    every call adds. *)
Definition first_call_steps : list event :=
  [EvUartTryInit; EvVmPhyssegInit; EvVmInit].

Definition per_call_steps (core : nat) : list event :=
  [EvIdtLoad core; EvGdtLoad core].

Lemma pre_init_first core k :
  is_bsp k = true ->
  trace (pre_init core k)
    = trace k ++ first_call_steps ++ per_call_steps core.
Proof.
  intros Hb. unfold pre_init. rewrite Hb. cbn.
  now rewrite <- !app_assoc.
Qed.

Lemma pre_init_later core k :
  is_bsp k = false ->
  trace (pre_init core k) = trace k ++ per_call_steps core.
Proof.
  intros Hb. unfold pre_init. rewrite Hb. cbn.
  now rewrite <- !app_assoc.
Qed.

Lemma pre_init_clears_is_bsp core k : is_bsp (pre_init core k) = false.
Proof. unfold pre_init. now destruct (is_bsp k) eqn:Hb. Qed.

Lemma gdt_load_g_idt core k : g_idt (gdt_load core k) = g_idt k.
Proof. reflexivity. Qed.

Lemma pre_init_g_idt core k :
  g_idt (pre_init core k) = list_to_map installed_gates ∪ g_idt k.
Proof.
  unfold pre_init.
  rewrite gdt_load_g_idt, interrupts_init_g_idt. f_equal.
  destruct (is_bsp k); reflexivity.
Qed.

Lemma pre_init_idtr core k : idtr (pre_init core k) = {[core]} ∪ idtr k.
Proof. unfold pre_init. now destruct (is_bsp k). Qed.

Lemma pre_init_all_cons c cores k :
  pre_init_all (c :: cores) k = pre_init_all cores (pre_init c k).
Proof. reflexivity. Qed.

Lemma pre_init_all_later cores k :
  is_bsp k = false ->
  trace (pre_init_all cores k) = trace k ++ flat_map per_call_steps cores /\
  is_bsp (pre_init_all cores k) = false.
Proof.
  revert k. induction cores as [|c cores IH]; intros k Hb.
  - cbn. now rewrite app_nil_r.
  - rewrite pre_init_all_cons. cbn [flat_map].
    destruct (IH (pre_init c k) (pre_init_clears_is_bsp c k)) as [Ht Hf].
    rewrite Ht, Hf.
    rewrite pre_init_later by assumption.
    now rewrite <- app_assoc.
Qed.

Lemma pre_init_all_g_idt c cores k :
  g_idt (pre_init_all (c :: cores) k) = list_to_map installed_gates ∪ g_idt k.
Proof.
  revert c k. induction cores as [|c' cores IH]; intros c k.
  - apply pre_init_g_idt.
  - rewrite pre_init_all_cons, IH, pre_init_g_idt.
    now rewrite (assoc_L (∪)), (idemp_L (∪)).
Qed.

Lemma pre_init_all_idtr cores k c :
  c ∈ cores -> c ∈ idtr (pre_init_all cores k).
Proof.
  assert (Hmono : forall cs k', c ∈ idtr k' -> c ∈ idtr (pre_init_all cs k')).
  { induction cs as [|c' cs IH]; intros k' Hin; [exact Hin|].
    cbn. apply IH. rewrite pre_init_idtr. apply elem_of_union. now right. }
  revert k. induction cores as [|c' cores IH]; intros k Hin.
  - now apply elem_of_nil in Hin.
  - apply elem_of_cons in Hin as [->|Hin].
    + cbn. apply Hmono. rewrite pre_init_idtr.
      apply elem_of_union. left. now apply elem_of_singleton.
    + cbn. now apply IH.
Qed.

(** C6.  Starting from boot, let the cores [core :: cores] call
    [pre_init] one after the other.  The debug transmit path, the
    physical segment tracker and the virtual memory subsystem are
    initialised in that order by the first call and by no other (the
    gate is the static flag [is_bsp], cleared by the first call, not an
    argument), and every call, the first included, installs the
    interrupt vector table and loads the descriptor table on the calling
    core. *)
Theorem pre_init_sequence (core : nat) (cores : list nat) :
  let k := pre_init_all (core :: cores) boot in
  trace k = first_call_steps ++ flat_map per_call_steps (core :: cores) /\
  is_bsp k = false /\
  g_idt k = list_to_map installed_gates /\
  (forall c, c ∈ core :: cores -> c ∈ idtr k).
Proof.
  cbv zeta. repeat split.
  - rewrite pre_init_all_cons.
    destruct (pre_init_all_later cores (pre_init core boot)
                (pre_init_clears_is_bsp core boot)) as [Ht _].
    rewrite Ht, pre_init_first by reflexivity.
    cbn [trace boot flat_map]. now rewrite app_nil_l, <- app_assoc.
  - rewrite pre_init_all_cons.
    apply pre_init_all_later, pre_init_clears_is_bsp.
  - rewrite pre_init_all_g_idt. cbn [g_idt boot].
    apply (right_id_L ∅ (∪)).
  - intros c Hc. now apply pre_init_all_idtr.
Qed.

(** X10.  [pre_init] writes only the thirteen vectors of
    [interrupts_init]: any other entry of the interrupt vector table is
    after the call what it was before, on the first call and on every
    later one.  A handler installed on another vector survives a later
    core's [pre_init]; one installed on any of the thirteen is replaced. *)
Theorem pre_init_other_vectors (core : nat) (k : kernel) (vec : Z) :
  vec ∉ [0x0; 0x2; 0x3; 0x4; 0x5; 0x6; 0x8; 0xA; 0xB; 0xC; 0xD; 0xE; 0x80] ->
  g_idt (pre_init core k) !! vec = g_idt k !! vec.
Proof.
  intros Hnot. rewrite pre_init_g_idt, lookup_union_r; [reflexivity|].
  now apply not_elem_of_list_to_map_1.
Qed.

(** X11.  Whatever the table held, after [pre_init] each of the
    thirteen vectors has a gate on interrupt stack 0, and the gate is
    open to user mode ([IDT_INT_GATE_USER]) exactly on vector 0x80, the
    system call; the twelve exception vectors, double fault and NMI
    among them, are trap gates. *)
Theorem pre_init_gate_kinds (core : nat) (k : kernel) :
  Forall
    (fun vec =>
       exists g, g_idt (pre_init core k) !! vec = Some g /\
                 gate_ist g = 0 /\
                 (gate_type g = IDT_INT_GATE_USER <-> vec = 0x80) /\
                 (gate_type g = IDT_TRAP_GATE_FLAGS <-> vec <> 0x80))
    [0x0; 0x2; 0x3; 0x4; 0x5; 0x6; 0x8; 0xA; 0xB; 0xC; 0xD; 0xE; 0x80].
Proof.
  rewrite pre_init_g_idt.
  assert (Hnodup : NoDup installed_gates.*1)
    by (apply (bool_decide_unpack _); by vm_compute).
  repeat constructor.
  all: eexists; split;
    [ apply lookup_union_Some_l, (elem_of_list_to_map_1 _ _ _ Hnodup);
      unfold installed_gates; rewrite !elem_of_cons; eauto 20 |].
  all: cbn [gate_ist gate_type]; repeat split; intros; congruence || lia.
Qed.

(** Vector 0x21 holds a gate of some driver; core 3 runs [pre_init]. *)
Lemma pre_init_other_vectors_witness :
  let k := {| is_bsp := false;
              g_idt := {[ 0x21 := IdtGate IDT_TRAP_GATE_FLAGS nmi 0 ]};
              idtr := ∅; trace := [] |} in
  g_idt (pre_init 3 k) !! 0x21 = Some (IdtGate IDT_TRAP_GATE_FLAGS nmi 0).
Proof.
  cbv zeta.
  rewrite (pre_init_other_vectors 3 _ 0x21).
  - reflexivity.
  - rewrite !elem_of_cons, elem_of_nil.
    intros H; repeat (destruct H as [H|H]; [discriminate H|]); exact H.
Defined.

End Bringup.

(** ** The Process FPU Context Manager: [processor_init_pcb],
       [processor_free_pcb] and [processor_switch_to] *)

Module Pcb.

Abbreviation byte := Byte.byte.

Definition byte_of_Z (z : Z) : byte :=
  default Byte.x00 (Byte.of_N (Z.to_N (z mod 256))).

Definition Z_of_byte (b : byte) : Z := Z.of_N (Byte.to_N b).

(** Little-endian operands, as the processor reads them from memory. *)
Fixpoint le_encode (n : nat) (v : Z) : list byte :=
  match n with
  | O => []
  | S n => byte_of_Z v :: le_encode n (v / 256)
  end.

Fixpoint le_decode (bs : list byte) : Z :=
  match bs with
  | [] => 0
  | b :: bs => Z_of_byte b + 256 * le_decode bs
  end.

(** *** Byte-addressed memory *)

Definition memory := Z -> byte.

Definition store_bytes (addr : Z) (bs : list byte) (ram : memory) : memory :=
  fun a =>
    if (addr <=? a) && (a <? addr + Z.of_nat (length bs))
    then nth (Z.to_nat (a - addr)) bs Byte.x00
    else ram a.

Definition load_bytes (addr : Z) (n : nat) (ram : memory) : list byte :=
  map (fun i => ram (addr + Z.of_nat i)) (seq 0 n).

(** *** The FXSAVE image

    The live x87/SSE register state is kept as the 512-byte image that
    [fxsave] writes and [fxrstor] reads back; the x87 control word sits
    at bytes 0-1 of it and MXCSR at bytes 24-27. *)

Definition FXSAVE_SIZE : nat := 512.
Definition FCW_OFFSET : nat := 0.
Definition MXCSR_OFFSET : nat := 24.

Definition read_at (off n : nat) (img : list byte) : list byte :=
  take n (drop off img).

Definition write_at (off : nat) (bs img : list byte) : list byte :=
  take off img ++ bs ++ drop (off + length bs) img.

(** The reserved bit of the x87 control word that is always set. *)
Definition FCW_RESERVED : Z := __BIT 6.

Definition image_fcw (img : list byte) : Z := le_decode (read_at FCW_OFFSET 2 img).
Definition image_mxcsr (img : list byte) : Z := le_decode (read_at MXCSR_OFFSET 4 img).

(** *** Facts about memory and images *)

Lemma length_load_bytes a n mem : length (load_bytes a n mem) = n.
Proof. unfold load_bytes. now rewrite length_map, length_seq. Qed.

Lemma load_bytes_lookup a n mem (i : nat) :
  load_bytes a n mem !! i
    = if decide (i < n)%nat then Some (mem (a + Z.of_nat i)) else None.
Proof.
  unfold load_bytes. rewrite list_lookup_fmap.
  case_decide as Hi.
  - now rewrite lookup_seq_lt.
  - rewrite lookup_seq_ge; [reflexivity | lia].
Qed.

Lemma store_bytes_inside a bs mem (i : nat) :
  (i < length bs)%nat ->
  Some (store_bytes a bs mem (a + Z.of_nat i)) = bs !! i.
Proof.
  intros Hi. unfold store_bytes.
  replace ((a <=? a + Z.of_nat i) && (a + Z.of_nat i <? a + Z.of_nat (length bs)))
    with true by (symmetry; apply andb_true_iff; split; lia).
  replace (Z.to_nat (a + Z.of_nat i - a)) with i by lia.
  rewrite nth_lookup.
  destruct (lookup_lt_is_Some_2 bs i Hi) as [b Hb]. now rewrite Hb.
Qed.

Lemma store_bytes_outside a bs mem x :
  x < a \/ a + Z.of_nat (length bs) <= x ->
  store_bytes a bs mem x = mem x.
Proof.
  intros Hx. unfold store_bytes.
  replace ((a <=? x) && (x <? a + Z.of_nat (length bs))) with false;
    [reflexivity|].
  symmetry. apply andb_false_iff. lia.
Qed.

(** What is stored can be loaded back. *)
Lemma load_store_same a bs mem :
  load_bytes a (length bs) (store_bytes a bs mem) = bs.
Proof.
  apply list_eq. intros i. rewrite load_bytes_lookup.
  case_decide as Hi.
  - now apply store_bytes_inside.
  - symmetry. apply lookup_ge_None. lia.
Qed.

(** Loading depends only on the bytes of the area loaded. *)
Lemma load_bytes_ext a n mem1 mem2 :
  (forall x, a <= x < a + Z.of_nat n -> mem1 x = mem2 x) ->
  load_bytes a n mem1 = load_bytes a n mem2.
Proof.
  intros Hext. apply list_eq. intros i. rewrite !load_bytes_lookup.
  case_decide as Hi; [|reflexivity].
  f_equal. apply Hext. lia.
Qed.

Lemma length_le_encode n v : length (le_encode n v) = n.
Proof. revert v. induction n as [|n IH]; intros v; cbn; [|rewrite IH]; reflexivity. Qed.

Lemma length_write_at off bs img :
  (off + length bs <= length img)%nat ->
  length (write_at off bs img) = length img.
Proof.
  intros Hle. unfold write_at.
  rewrite !length_app, length_take, length_drop. lia.
Qed.

Lemma read_write_at_same off bs img :
  (off <= length img)%nat ->
  read_at off (length bs) (write_at off bs img) = bs.
Proof.
  intros Hle. unfold read_at, write_at.
  rewrite drop_app_length' by (rewrite length_take; lia).
  now rewrite take_app_length.
Qed.

Lemma read_write_at_before off n off' bs img :
  (off + n <= off')%nat -> (off' <= length img)%nat ->
  read_at off n (write_at off' bs img) = read_at off n img.
Proof.
  intros Hlt Hle. unfold read_at, write_at.
  apply list_eq. intros i.
  rewrite !lookup_take. case_decide as Hi; [|reflexivity].
  rewrite !lookup_drop.
  rewrite lookup_app_l by (rewrite length_take; lia).
  rewrite lookup_take. case_decide; [reflexivity | lia].
Qed.

(** *** Processes *)

Record struct_pcb := StructPcb { fpu_state : Z }.
Record proc := Proc { pcb : struct_pcb }.

(** Modelled from the spec: the size of the "fixed-size page frames" the
    physical allocator deals in; the constant itself is in the [vm/]
    headers, which are not part of the sources at hand, and is 4 KiB on
    amd64. *)
Definition PAGE_SIZE : Z := 4096.

Section ContextManager.

(** The physical page-frame allocator of [vm/] and the direct-map
    translation macros, none of which is part of the sources at hand:
    the allocator's state, [vm_alloc_pageframe(count)] returning a
    physical address, [vm_free_pageframe(base, count)], and the two
    address translations. *)
Variable pmem : Type.
Variable vm_alloc_pageframe : Z -> pmem -> Z * pmem.
Variable vm_free_pageframe : Z -> Z -> pmem -> pmem.
Variable PHYS_TO_VIRT : Z -> Z.
Variable VIRT_TO_PHYS : Z -> Z.

(** The allocator, the live FPU/SIMD registers of the executing core,
    and memory. *)
Record machine := Machine { phys : pmem; fpu : list byte; ram : memory }.

(** [fldcw m16] and [ldmxcsr m32] load the x87 control word and MXCSR
    from a memory operand; nothing else of the register state moves.
    Bit 6 of the x87 control word is reserved and reads as 1 whatever is
    loaded (the power-on value 0x037F has it set): the control word
    that [fldcw] leaves, and that a later [fxsave] stores, is the
    operand with bit 6 set. *)
Definition fldcw (w : Z) (m : machine) : machine :=
  {| phys := phys m; ram := ram m;
     fpu := write_at FCW_OFFSET (le_encode 2 (Z.lor w FCW_RESERVED)) (fpu m) |}.

Definition ldmxcsr (w : Z) (m : machine) : machine :=
  {| phys := phys m; ram := ram m;
     fpu := write_at MXCSR_OFFSET (le_encode 4 w) (fpu m) |}.

(** Modelled from the spec: [amd64_fxsave] and [amd64_fxrstor], declared
    in [machine/cpu.h] and not part of the sources at hand.  The first
    "captures the live register state into" the save area at [area], the
    second "loads" the save area "into the live registers". *)
Definition amd64_fxsave (area : Z) (m : machine) : machine :=
  {| phys := phys m; fpu := fpu m;
     ram := store_bytes area (fpu m) (ram m) |}.

Definition amd64_fxrstor (area : Z) (m : machine) : machine :=
  {| phys := phys m; ram := ram m;
     fpu := load_bytes area FXSAVE_SIZE (ram m) |}.

(** [processor_init_pcb]: the status, the process and the machine it
    leaves. *)
Definition processor_init_pcb (p : proc) (m : machine) : Z * proc * machine :=
  let FPU_FCW := 0x33F in
  let SSE_MXCSR := 0x1F80 in
  (* Allocate FPU save area, aligned on a 16 byte boundary *)
  let '(pa, ph) := vm_alloc_pageframe 1 (phys m) in
  let m := {| phys := ph; fpu := fpu m; ram := ram m |} in
  let p := {| pcb := {| fpu_state := PHYS_TO_VIRT pa |} |} in
  if fpu_state (pcb p) =? NULL then
    (-1, p, m)
  else
    (* Setup x87 FPU control word and SSE MXCSR bits as per the sysv ABI *)
    let m := fldcw FPU_FCW m in
    let m := ldmxcsr SSE_MXCSR m in
    let m := amd64_fxsave (fpu_state (pcb p)) m in
    (0, p, m).

(** [processor_free_pcb].  The process is handed back as well: the
    function writes nothing into it. *)
Definition processor_free_pcb (p : proc) (m : machine) : Z * proc * machine :=
  if fpu_state (pcb p) =? NULL then
    (-1, p, m)
  else
    let m := {| phys := vm_free_pageframe (VIRT_TO_PHYS (fpu_state (pcb p))) 1 (phys m);
                fpu := fpu m; ram := ram m |} in
    (0, p, m).

(** [processor_switch_to]; [old_td] is [None] for a null pointer. *)
Definition processor_switch_to (old_td : option proc) (new_td : proc)
    (m : machine) : machine :=
  let old_pcb := match old_td with Some td => Some (pcb td) | None => None end in
  let new_pcb := pcb new_td in
  let m :=
    match old_pcb with
    | Some old_pcb => amd64_fxsave (fpu_state old_pcb) m
    | None => m
    end in
  amd64_fxrstor (fpu_state new_pcb) m.

(** *** Properties *)

(** The bytes of the save area at [area]. *)
Definition in_area (area a : Z) : Prop :=
  area <= a < area + Z.of_nat FXSAVE_SIZE.

(** Two save areas that share no byte. *)
Definition areas_disjoint (a b : Z) : Prop :=
  a + Z.of_nat FXSAVE_SIZE <= b \/ b + Z.of_nat FXSAVE_SIZE <= a.

(** Save areas are page frames: two different ones share no byte. *)
Lemma page_frames_disjoint (a b : Z) :
  a mod PAGE_SIZE = 0 -> b mod PAGE_SIZE = 0 -> a <> b -> areas_disjoint a b.
Proof.
  unfold PAGE_SIZE, areas_disjoint, FXSAVE_SIZE. intros Ha Hb Hne.
  apply Z.mod_divide in Ha as [qa ->]; [|lia].
  apply Z.mod_divide in Hb as [qb ->]; [|lia].
  assert (qa <> qb) by congruence.
  change (Z.of_nat 512) with 512. lia.
Qed.

Lemma page_aligned_16 (a : Z) : a mod PAGE_SIZE = 0 -> a mod 16 = 0.
Proof.
  unfold PAGE_SIZE. intros Ha.
  apply Z.mod_divide in Ha as [q ->]; [|lia].
  replace (q * 4096) with (q * 256 * 16) by lia.
  apply Z.mod_mul. lia.
Qed.

Lemma fxsave_then_load area m :
  load_bytes area (length (fpu m)) (ram (amd64_fxsave area m)) = fpu m.
Proof. apply load_store_same. Qed.

Lemma init_image_length m :
  length (fpu m) = FXSAVE_SIZE ->
  length (fpu (ldmxcsr 0x1F80 (fldcw 0x33F m))) = FXSAVE_SIZE.
Proof.
  intros Hlen. cbn [fpu ldmxcsr fldcw].
  assert (Hfcw : length (write_at FCW_OFFSET
                           (le_encode 2 (Z.lor 0x33F FCW_RESERVED)) (fpu m))
                 = FXSAVE_SIZE).
  { rewrite length_write_at; [assumption|].
    rewrite length_le_encode, Hlen. unfold FCW_OFFSET, FXSAVE_SIZE. lia. }
  rewrite length_write_at; [assumption|].
  rewrite length_le_encode, Hfcw. unfold MXCSR_OFFSET, FXSAVE_SIZE. lia.
Qed.

Lemma init_image_fcw m :
  length (fpu m) = FXSAVE_SIZE ->
  image_fcw (fpu (ldmxcsr 0x1F80 (fldcw 0x33F m))) = 0x37F.
Proof.
  intros Hlen. unfold image_fcw. cbn [fpu ldmxcsr fldcw].
  rewrite read_write_at_before.
  - change 2%nat with (length (le_encode 2 (Z.lor 0x33F FCW_RESERVED))).
    rewrite read_write_at_same; [reflexivity|].
    rewrite Hlen. unfold FCW_OFFSET. lia.
  - unfold FCW_OFFSET, MXCSR_OFFSET. lia.
  - rewrite length_write_at; rewrite ?length_le_encode, Hlen;
      unfold FCW_OFFSET, MXCSR_OFFSET, FXSAVE_SIZE; lia.
Qed.

Lemma init_image_mxcsr m :
  length (fpu m) = FXSAVE_SIZE ->
  image_mxcsr (fpu (ldmxcsr 0x1F80 (fldcw 0x33F m))) = 0x1F80.
Proof.
  intros Hlen. unfold image_mxcsr. cbn [fpu ldmxcsr fldcw].
  change 4%nat with (length (le_encode 4 0x1F80)).
  rewrite read_write_at_same; [reflexivity|].
  rewrite length_write_at; rewrite ?length_le_encode, Hlen;
    unfold FCW_OFFSET, MXCSR_OFFSET, FXSAVE_SIZE; lia.
Qed.

(** X15.  [processor_init_pcb] has two outcomes, and which one it is
    depends on the translated address alone.  In both, the save-area
    pointer of the process is overwritten with the translation of what
    the allocator returned, and the allocator is left as the call to it
    left it.  If that address is not the null pointer the function
    returns 0: the save area lies on a 16-byte boundary and holds a copy
    of the live register image, in which the x87 control word is 0x37F
    and MXCSR is 0x1F80 (the System V values).  If it is the null
    pointer the function returns -1 and has touched neither the
    registers nor memory.

    The allocator and the address translation are parameters; what is
    assumed of them is that a page frame starts on a page boundary and
    that the direct map sends page boundaries to page boundaries. *)
Theorem processor_init_pcb_cases (p : proc) (m : machine) :
  length (fpu m) = FXSAVE_SIZE ->
  (vm_alloc_pageframe 1 (phys m)).1 mod PAGE_SIZE = 0 ->
  (forall pa, pa mod PAGE_SIZE = 0 -> PHYS_TO_VIRT pa mod PAGE_SIZE = 0) ->
  let '(r, p', m') := processor_init_pcb p m in
  let area := fpu_state (pcb p') in
  area = PHYS_TO_VIRT (vm_alloc_pageframe 1 (phys m)).1 /\
  phys m' = (vm_alloc_pageframe 1 (phys m)).2 /\
  ((r = 0 /\
    area <> NULL /\
    area mod 16 = 0 /\
    load_bytes area FXSAVE_SIZE (ram m') = fpu m' /\
    image_fcw (fpu m') = 0x37F /\
    image_mxcsr (fpu m') = 0x1F80)
   \/
   (r = -1 /\
    area = NULL /\
    fpu m' = fpu m /\
    ram m' = ram m)).
Proof.
  intros Hlen Hframe Hmap. unfold processor_init_pcb.
  destruct (vm_alloc_pageframe 1 (phys m)) as [pa ph] eqn:Halloc.
  cbn [fst snd pcb fpu_state] in *.
  destruct (Z.eqb_spec (PHYS_TO_VIRT pa) NULL) as [Hnull|Hok].
  - cbn [pcb fpu_state phys fpu ram].
    split; [reflexivity|]. split; [reflexivity|]. right.
    split; [reflexivity|]. split; [exact Hnull|]. split; reflexivity.
  - cbn [pcb fpu_state].
    set (m0 := {| phys := ph; fpu := fpu m; ram := ram m |}).
    assert (Hlen0 : length (fpu m0) = FXSAVE_SIZE) by exact Hlen.
    split; [reflexivity|]. split; [reflexivity|]. left.
    split; [reflexivity|]. split; [exact Hok|].
    split; [apply page_aligned_16, Hmap, Hframe|].
    split; [|split].
    + change (fpu (amd64_fxsave ?a ?x)) with (fpu x).
      rewrite <- (init_image_length m0 Hlen0) at 1.
      apply fxsave_then_load.
    + apply (init_image_fcw m0 Hlen0).
    + apply (init_image_mxcsr m0 Hlen0).
Qed.

Lemma processor_free_pcb_null (p : proc) (m : machine) :
  fpu_state (pcb p) = NULL -> processor_free_pcb p m = (-1, p, m).
Proof. intros Hp. unfold processor_free_pcb. now rewrite Hp. Qed.

Lemma processor_free_pcb_allocated (p : proc) (m : machine) :
  fpu_state (pcb p) <> NULL ->
  processor_free_pcb p m =
    (0, p,
     {| phys := vm_free_pageframe (VIRT_TO_PHYS (fpu_state (pcb p))) 1 (phys m);
        fpu := fpu m; ram := ram m |}).
Proof.
  intros Hp. unfold processor_free_pcb.
  destruct (Z.eqb_spec (fpu_state (pcb p)) NULL); [contradiction|reflexivity].
Qed.

(** C7.  [processor_free_pcb] on a process whose save-area pointer is
    null returns -1 and leaves the machine, the allocator included, as
    it was; on a process with a save area it hands the page of that save
    area to [vm_free_pageframe], touches nothing else, and returns 0. *)
Theorem processor_free_pcb_outcome (p : proc) (m : machine) :
  (fpu_state (pcb p) = NULL ->
   processor_free_pcb p m = (-1, p, m)) /\
  (fpu_state (pcb p) <> NULL ->
   processor_free_pcb p m =
     (0, p,
      {| phys := vm_free_pageframe (VIRT_TO_PHYS (fpu_state (pcb p))) 1 (phys m);
         fpu := fpu m; ram := ram m |})).
Proof.
  split.
  - apply processor_free_pcb_null.
  - apply processor_free_pcb_allocated.
Qed.

(** X9.  Allocate, then release: when [VIRT_TO_PHYS] undoes
    [PHYS_TO_VIRT], [processor_free_pcb] after a successful
    [processor_init_pcb] returns 0 and hands [vm_free_pageframe] the
    very frame [vm_alloc_pageframe] gave out, and nothing else of the
    machine moves. *)
Lemma free_after_init_returns_page (p p' : proc) (m m' : machine) :
  (forall pa, VIRT_TO_PHYS (PHYS_TO_VIRT pa) = pa) ->
  processor_init_pcb p m = (0, p', m') ->
  processor_free_pcb p' m' =
    (0, p',
     {| phys := vm_free_pageframe (vm_alloc_pageframe 1 (phys m)).1 1 (phys m');
        fpu := fpu m'; ram := ram m' |}).
Proof.
  intros Hinv. unfold processor_init_pcb.
  destruct (vm_alloc_pageframe 1 (phys m)) as [pa ph].
  cbn [pcb fpu_state fst].
  destruct (Z.eqb_spec (PHYS_TO_VIRT pa) NULL) as [Hnull|Hok];
    [discriminate|].
  intros [= <- <-].
  unfold processor_free_pcb. cbn [pcb fpu_state].
  destruct (Z.eqb_spec (PHYS_TO_VIRT pa) NULL); [contradiction|].
  now rewrite Hinv.
Qed.

(** C9.  [processor_free_pcb] does not clear the save-area pointer: on a
    process with a save area a first release returns 0 and leaves the
    process as it was, so a second release returns 0 again and hands the
    same page to [vm_free_pageframe] a second time. *)
Theorem processor_free_pcb_twice (p : proc) (m : machine) :
  fpu_state (pcb p) <> NULL ->
  let page := VIRT_TO_PHYS (fpu_state (pcb p)) in
  let '(r1, p1, m1) := processor_free_pcb p m in
  let '(r2, p2, m2) := processor_free_pcb p1 m1 in
  r1 = 0 /\ p1 = p /\ fpu_state (pcb p1) <> NULL /\
  phys m1 = vm_free_pageframe page 1 (phys m) /\
  r2 = 0 /\ p2 = p /\
  phys m2 = vm_free_pageframe page 1 (vm_free_pageframe page 1 (phys m)).
Proof.
  intros Hp. cbv zeta.
  rewrite (processor_free_pcb_allocated p m Hp).
  rewrite (processor_free_pcb_allocated p _ Hp).
  cbn [phys]. repeat split; assumption.
Qed.

(** C5.  [processor_switch_to] with no outgoing process leaves memory
    as it was, so the live registers are captured nowhere; with an
    outgoing process, its save area holds the live register image
    afterwards and no byte outside that image's extent has changed.  In
    both cases the live registers end up as the content of the incoming
    process's save area. *)
Theorem processor_switch_to_effect (old_td : option proc) (new_td : proc)
    (m : machine) :
  let m' := processor_switch_to old_td new_td m in
  match old_td with
  | None => forall a, ram m' a = ram m a
  | Some td =>
      load_bytes (fpu_state (pcb td)) (length (fpu m)) (ram m') = fpu m /\
      (forall a,
         a < fpu_state (pcb td) \/
         fpu_state (pcb td) + Z.of_nat (length (fpu m)) <= a ->
         ram m' a = ram m a)
  end /\
  fpu m' = load_bytes (fpu_state (pcb new_td)) FXSAVE_SIZE (ram m') /\
  phys m' = phys m.
Proof.
  cbv zeta. unfold processor_switch_to.
  destruct old_td as [td|]; cbn [amd64_fxrstor amd64_fxsave ram fpu phys].
  - repeat split.
    + apply load_store_same.
    + intros a Ha. now apply store_bytes_outside.
  - repeat split.
Qed.

(** C4.  Switch from [A] to [B], let [B] run, switch back from [B] to
    [A]: the live registers are again, byte for byte, what they were
    before the first switch.  [between] is the machine just before the
    second switch: while [A] was not running the registers may have
    become anything and memory may have changed anywhere but in [A]'s
    save area.  The two save areas are allocated separately, so they
    share no byte. *)
Theorem switch_roundtrip (A B : proc) (m between : machine) :
  length (fpu m) = FXSAVE_SIZE ->
  length (fpu between) = FXSAVE_SIZE ->
  areas_disjoint (fpu_state (pcb A)) (fpu_state (pcb B)) ->
  (forall a, in_area (fpu_state (pcb A)) a ->
             ram between a = ram (processor_switch_to (Some A) B m) a) ->
  fpu (processor_switch_to (Some B) A between) = fpu m.
Proof.
  intros Hlen Hlen' Hdisj Hkept.
  unfold processor_switch_to at 1.
  cbn [amd64_fxrstor amd64_fxsave ram fpu pcb].
  transitivity
    (load_bytes (fpu_state (pcb A)) FXSAVE_SIZE
       (ram (amd64_fxsave (fpu_state (pcb A)) m))).
  - apply load_bytes_ext. intros x Hx.
    rewrite store_bytes_outside.
    + now rewrite Hkept.
    + rewrite Hlen'. unfold areas_disjoint in Hdisj. lia.
  - rewrite <- Hlen. apply fxsave_then_load.
Qed.

(** *** Further properties of the context manager *)

Lemma lookup_write_at_outside off bs img (i : nat) :
  (off + length bs <= length img)%nat ->
  (i < off \/ off + length bs <= i)%nat ->
  write_at off bs img !! i = img !! i.
Proof.
  intros Hfit [Hlo|Hhi]; unfold write_at.
  - rewrite lookup_app_l by (rewrite length_take; lia).
    rewrite lookup_take. case_decide; [reflexivity | lia].
  - rewrite lookup_app_r by (rewrite length_take; lia).
    rewrite length_take, Nat.min_l by lia.
    rewrite lookup_app_r by lia.
    rewrite lookup_drop. f_equal. lia.
Qed.

Lemma init_image_lookup m (i : nat) :
  length (fpu m) = FXSAVE_SIZE ->
  (2 <= i < 24 \/ 28 <= i)%nat ->
  fpu (ldmxcsr 0x1F80 (fldcw 0x33F m)) !! i = fpu m !! i.
Proof.
  intros Hlen Hi. cbn [fpu ldmxcsr fldcw].
  assert (Hfcw : length (write_at FCW_OFFSET
                           (le_encode 2 (Z.lor 0x33F FCW_RESERVED)) (fpu m))
                 = FXSAVE_SIZE).
  { rewrite length_write_at; [exact Hlen|].
    rewrite length_le_encode, Hlen. unfold FCW_OFFSET, FXSAVE_SIZE. lia. }
  rewrite lookup_write_at_outside.
  - apply lookup_write_at_outside.
    + rewrite length_le_encode, Hlen. unfold FCW_OFFSET, FXSAVE_SIZE. lia.
    + rewrite length_le_encode. unfold FCW_OFFSET. lia.
  - rewrite length_le_encode, Hfcw. unfold MXCSR_OFFSET, FXSAVE_SIZE. lia.
  - rewrite length_le_encode. unfold MXCSR_OFFSET. lia.
Qed.

(** X4.  When [processor_init_pcb] has failed, the process it leaves
    cannot be released either: [processor_free_pcb] returns -1 on it and
    changes nothing, so a failed allocation followed by the usual
    tear-down frees no page. *)
Theorem init_pcb_failed_then_free (p p' : proc) (m m' : machine) :
  processor_init_pcb p m = (-1, p', m') ->
  fpu_state (pcb p') = NULL /\
  processor_free_pcb p' m' = (-1, p', m').
Proof.
  unfold processor_init_pcb.
  destruct (vm_alloc_pageframe 1 (phys m)) as [pa ph].
  cbn [pcb fpu_state].
  destruct (Z.eqb_spec (PHYS_TO_VIRT pa) NULL) as [Hnull|Hok];
    [|discriminate].
  intros [= <- <-]. split; [exact Hnull|].
  now apply processor_free_pcb_null.
Qed.

(** X5.  [processor_init_pcb] writes nothing outside the save area it
    has just allocated: on success every byte of memory outside the 512
    bytes at the new [fpu_state] is as before, and on failure all of
    memory is. *)
Theorem processor_init_pcb_frame (p : proc) (m : machine) :
  length (fpu m) = FXSAVE_SIZE ->
  let '(r, p', m') := processor_init_pcb p m in
  (r = -1 -> forall a, ram m' a = ram m a) /\
  (forall a, ~ in_area (fpu_state (pcb p')) a -> ram m' a = ram m a).
Proof.
  intros Hlen. unfold processor_init_pcb.
  destruct (vm_alloc_pageframe 1 (phys m)) as [pa ph].
  cbn [pcb fpu_state].
  destruct (Z.eqb_spec (PHYS_TO_VIRT pa) NULL) as [Hnull|Hok].
  - split; intros; reflexivity.
  - split; [discriminate|]. intros a Ha.
    set (m0 := {| phys := ph; fpu := fpu m; ram := ram m |}).
    cbn [amd64_fxsave ram].
    rewrite store_bytes_outside; [reflexivity|].
    rewrite (init_image_length m0 Hlen).
    unfold in_area in Ha. cbn [pcb fpu_state] in Ha. lia.
Qed.

(** X6.  [processor_init_pcb] resets the two control words and nothing
    else: after a successful call the live register image still has 512
    bytes and agrees with the one before the call at every byte other
    than bytes 0-1 (the x87 control word) and 24-27 (MXCSR).  Whatever
    the data registers held is what the new save area starts with. *)
Theorem processor_init_pcb_keeps_data (p : proc) (m : machine) :
  length (fpu m) = FXSAVE_SIZE ->
  let '(r, p', m') := processor_init_pcb p m in
  length (fpu m') = FXSAVE_SIZE /\
  (r = -1 -> fpu m' = fpu m) /\
  (forall i : nat, (2 <= i < 24 \/ 28 <= i)%nat -> fpu m' !! i = fpu m !! i).
Proof.
  intros Hlen. unfold processor_init_pcb.
  destruct (vm_alloc_pageframe 1 (phys m)) as [pa ph].
  cbn [pcb fpu_state].
  destruct (Z.eqb_spec (PHYS_TO_VIRT pa) NULL) as [Hnull|Hok].
  - cbn [fpu]. split; [exact Hlen|]. split; reflexivity.
  - set (m0 := {| phys := ph; fpu := fpu m; ram := ram m |}).
    change (fpu (amd64_fxsave ?a ?x)) with (fpu x).
    split; [apply (init_image_length m0 Hlen)|].
    split; [discriminate|]. intros i Hi.
    apply (init_image_lookup m0 i Hlen Hi).
Qed.

(** X7.  [processor_switch_to] does not tell save areas apart: when the
    outgoing and the incoming process share one (in particular when a
    process is switched to itself), the registers saved are loaded
    straight back and the incoming process runs on the outgoing one's
    register image. *)
Theorem switch_shared_area (A B : proc) (m : machine) :
  length (fpu m) = FXSAVE_SIZE ->
  fpu_state (pcb A) = fpu_state (pcb B) ->
  fpu (processor_switch_to (Some A) B m) = fpu m.
Proof.
  intros Hlen Hsame. unfold processor_switch_to.
  cbn [amd64_fxrstor amd64_fxsave ram fpu].
  rewrite <- Hsame, <- Hlen. apply load_store_same.
Qed.

(** X8.  How a new process starts.  Once [processor_init_pcb] has
    succeeded for a process, the first [processor_switch_to] to it,
    however much later and whoever is switched out, puts the System V
    control words into the registers (x87 control word 0x37F, MXCSR
    0x1F80), and in every other byte the registers of the core that ran
    [processor_init_pcb], as they were at that call: the save area is not
    cleared.  In between, memory may have changed anywhere but in the new
    save area, and the outgoing process has a save area of its own. *)
Theorem new_process_first_switch (p p' : proc) (m m' later : machine)
    (old_td : option proc) :
  length (fpu m) = FXSAVE_SIZE ->
  processor_init_pcb p m = (0, p', m') ->
  (forall a, in_area (fpu_state (pcb p')) a -> ram later a = ram m' a) ->
  match old_td with
  | Some td => length (fpu later) = FXSAVE_SIZE /\
               areas_disjoint (fpu_state (pcb td)) (fpu_state (pcb p'))
  | None => True
  end ->
  let regs := fpu (processor_switch_to old_td p' later) in
  image_fcw regs = 0x37F /\
  image_mxcsr regs = 0x1F80 /\
  (forall i : nat, (2 <= i < 24 \/ 28 <= i)%nat -> regs !! i = fpu m !! i).
Proof.
  intros Hlen Hinit Hkept Hold. cbv zeta.
  unfold processor_init_pcb in Hinit.
  destruct (vm_alloc_pageframe 1 (phys m)) as [pa ph].
  cbn [pcb fpu_state] in Hinit.
  destruct (Z.eqb_spec (PHYS_TO_VIRT pa) NULL) as [Hnull|Hok];
    [discriminate|].
  injection Hinit as <- <-.
  set (m0 := {| phys := ph; fpu := fpu m; ram := ram m |}) in *.
  assert (Hlen0 : length (fpu m0) = FXSAVE_SIZE) by exact Hlen.
  set (img := fpu (ldmxcsr 0x1F80 (fldcw 0x33F m0))).
  assert (Himg : length img = FXSAVE_SIZE) by apply (init_image_length m0 Hlen0).
  cbn [pcb fpu_state amd64_fxsave ram] in Hkept.
  fold img in Hkept.
  assert (Hregs : fpu (processor_switch_to old_td
                         {| pcb := {| fpu_state := PHYS_TO_VIRT pa |} |} later)
                  = img).
  { unfold processor_switch_to. cbn [pcb fpu_state amd64_fxrstor fpu ram].
    transitivity (load_bytes (PHYS_TO_VIRT pa) FXSAVE_SIZE
                    (store_bytes (PHYS_TO_VIRT pa) img (ram m)));
      [|rewrite <- Himg; apply load_store_same].
    apply load_bytes_ext. intros x Hx.
    destruct old_td as [td|]; cbn [amd64_fxsave ram].
    - destruct Hold as [Hlater Hdisj]. unfold areas_disjoint in Hdisj.
      cbn [pcb fpu_state] in Hdisj.
      rewrite store_bytes_outside by (rewrite Hlater; lia).
      apply Hkept. exact Hx.
    - apply Hkept. exact Hx. }
  rewrite Hregs. split; [|split].
  - apply (init_image_fcw m0 Hlen0).
  - apply (init_image_mxcsr m0 Hlen0).
  - intros i Hi. apply (init_image_lookup m0 i Hlen0 Hi).
Qed.

End ContextManager.

Arguments Machine {pmem}.
Arguments phys {pmem}.
Arguments fpu {pmem}.
Arguments ram {pmem}.
Arguments processor_init_pcb {pmem}.
Arguments processor_free_pcb {pmem}.
Arguments processor_switch_to {pmem}.

(** *** A small instance to run the functions on

    A free list of page frames, handed out from the front, with null
    for "none left"; memory is identity-mapped. *)

Definition demo_alloc (count : Z) (free : list Z) : Z * list Z :=
  match free with
  | [] => (0, [])
  | pa :: free => (pa, free)
  end.

Definition demo_free (pa count : Z) (free : list Z) : list Z := pa :: free.

Definition demo_translate (a : Z) : Z := a.

Definition demo_machine (free : list Z) (b : byte) : machine (list Z) :=
  {| phys := free; fpu := replicate FXSAVE_SIZE b; ram := fun _ => Byte.x00 |}.

Definition demo_proc (area : Z) : proc := {| pcb := {| fpu_state := area |} |}.

(** With a frame at 0x1000 free, [processor_init_pcb] succeeds and the
    save area is that frame; with no frame free it fails and the pointer
    is null. *)
Lemma processor_init_pcb_cases_witness :
  (processor_init_pcb demo_alloc demo_translate (demo_proc 0)
     (demo_machine [0x1000] Byte.x00)).1.1 = 0 /\
  fpu_state (pcb (processor_init_pcb demo_alloc demo_translate (demo_proc 0)
                    (demo_machine [0x1000] Byte.x00)).1.2) = 0x1000 /\
  (processor_init_pcb demo_alloc demo_translate (demo_proc 0x3000)
     (demo_machine [] Byte.x00)).1.1 = -1 /\
  fpu_state (pcb (processor_init_pcb demo_alloc demo_translate (demo_proc 0x3000)
                    (demo_machine [] Byte.x00)).1.2) = NULL.
Proof.
  assert (Hmap : forall pa, pa mod PAGE_SIZE = 0 ->
                            demo_translate pa mod PAGE_SIZE = 0)
    by (intros pa Hpa; exact Hpa).
  pose proof (processor_init_pcb_cases (list Z) demo_alloc demo_translate
                (demo_proc 0) (demo_machine [0x1000] Byte.x00)
                eq_refl eq_refl Hmap) as Hsome.
  pose proof (processor_init_pcb_cases (list Z) demo_alloc demo_translate
                (demo_proc 0x3000) (demo_machine [] Byte.x00)
                eq_refl eq_refl Hmap) as Hnone.
  destruct (processor_init_pcb demo_alloc demo_translate (demo_proc 0)
              (demo_machine [0x1000] Byte.x00)) as [[r1 p1] m1].
  destruct (processor_init_pcb demo_alloc demo_translate (demo_proc 0x3000)
              (demo_machine [] Byte.x00)) as [[r2 p2] m2].
  cbn [fst snd demo_alloc demo_machine phys demo_translate] in *.
  destruct Hsome as (Ha1 & _ & [(Hr1 & _)|(_ & Hc & _)]);
    [|rewrite Ha1 in Hc; discriminate Hc].
  destruct Hnone as (Ha2 & _ & [(_ & Hnn & _)|(Hr2 & _)]);
    [exfalso; apply Hnn; exact Ha2|].
  repeat split; assumption.
Defined.

(** The higher-half direct map of the amd64 port: physical address [pa]
    is mapped at [pa + 0xffff800000000000], an addition on 64-bit
    addresses. *)
Definition higher_half (pa : Z) : Z := (pa + 0xffff800000000000) mod 2 ^ 64.

(** C3.  [processor_init_pcb] tests the translated address, not what
    the allocator returned, so where physical memory is mapped at an
    offset it does not notice that no page frame is available.  The
    allocator below has no frame left and answers with the null
    physical address; under the higher-half direct map the translation
    of that is 0xffff800000000000, which is not the null pointer.  The
    function returns 0, the process has 0xffff800000000000 as its save
    area although nothing was allocated, and the register image has been
    written there, over what the first 512 bytes of physical memory
    held. *)
Theorem processor_init_pcb_exhausted :
  let m := demo_machine [] Byte.x01 in
  let '(r, p', m') :=
    processor_init_pcb demo_alloc higher_half (demo_proc NULL) m in
  demo_alloc 1 (phys m) = (0, []) /\
  r = 0 /\
  fpu_state (pcb p') = 0xffff800000000000 /\
  fpu_state (pcb p') <> NULL /\
  phys m' = [] /\
  load_bytes 0xffff800000000000 FXSAVE_SIZE (ram m)
    = replicate FXSAVE_SIZE Byte.x00 /\
  load_bytes 0xffff800000000000 FXSAVE_SIZE (ram m') = fpu m'.
Proof.
  cbv zeta.
  assert (Hrun :
    processor_init_pcb demo_alloc higher_half (demo_proc NULL)
      (demo_machine [] Byte.x01)
    = (0, demo_proc 0xffff800000000000,
       amd64_fxsave (list Z) 0xffff800000000000
         (ldmxcsr (list Z) 0x1F80
            (fldcw (list Z) 0x33F (demo_machine [] Byte.x01)))))
    by reflexivity.
  rewrite Hrun. cbn [pcb fpu_state demo_proc].
  split; [reflexivity|]. split; [reflexivity|]. split; [reflexivity|].
  split; [discriminate|]. split; [reflexivity|].
  split; [vm_compute; reflexivity|].
  change (fpu (amd64_fxsave (list Z) ?a ?x)) with (fpu x).
  rewrite <- (init_image_length (list Z)
                (demo_machine [] Byte.x01) eq_refl) at 1.
  apply fxsave_then_load.
Qed.

(** A process with its save area at 0x1000 released twice: both calls
    return 0 and frame 0x1000 is on the free list twice. *)
Lemma processor_free_pcb_twice_witness :
  fpu_state (pcb (demo_proc 0x1000)) <> NULL /\
  let '(r1, p1, m1) :=
    processor_free_pcb demo_free demo_translate (demo_proc 0x1000)
      (demo_machine [] Byte.x00) in
  let '(r2, p2, m2) := processor_free_pcb demo_free demo_translate p1 m1 in
  r1 = 0 /\ r2 = 0 /\ phys m2 = [0x1000; 0x1000].
Proof.
  assert (Hp : fpu_state (pcb (demo_proc 0x1000)) <> NULL) by discriminate.
  split; [exact Hp|].
  pose proof (processor_free_pcb_twice (list Z) demo_free demo_translate
                (demo_proc 0x1000) (demo_machine [] Byte.x00) Hp) as Hw.
  cbv zeta in Hw.
  destruct (processor_free_pcb demo_free demo_translate (demo_proc 0x1000)
              (demo_machine [] Byte.x00)) as [[r1 p1] m1].
  destruct (processor_free_pcb demo_free demo_translate p1 m1) as [[r2 p2] m2].
  destruct Hw as (Hr1 & _ & _ & _ & Hr2 & _ & Hm2).
  repeat split; assumption.
Defined.

(** Two processes with save areas at 0x1000 and 0x2000; the registers
    hold 0x01 bytes when the first is switched out and 0xff bytes when
    it is switched back in. *)
Definition demo_between : machine (list Z) :=
  {| phys := [];
     fpu := replicate FXSAVE_SIZE Byte.xff;
     ram := ram (processor_switch_to (Some (demo_proc 0x1000)) (demo_proc 0x2000)
                   (demo_machine [] Byte.x01)) |}.

Lemma switch_roundtrip_witness :
  fpu (processor_switch_to (Some (demo_proc 0x2000)) (demo_proc 0x1000)
         demo_between)
  = replicate FXSAVE_SIZE Byte.x01.
Proof.
  apply (switch_roundtrip (list Z) (demo_proc 0x1000) (demo_proc 0x2000)
           (demo_machine [] Byte.x01) demo_between).
  - reflexivity.
  - reflexivity.
  - left. apply Z.leb_le. reflexivity.
  - intros a _. reflexivity.
Defined.

(** A failed allocation (no frame free), then the release. *)
Lemma init_pcb_failed_then_free_witness :
  processor_init_pcb demo_alloc demo_translate (demo_proc 0x5000)
    (demo_machine [] Byte.x00)
  = (-1, demo_proc 0, demo_machine [] Byte.x00) /\
  processor_free_pcb demo_free demo_translate (demo_proc 0)
    (demo_machine [] Byte.x00)
  = (-1, demo_proc 0, demo_machine [] Byte.x00).
Proof.
  split; [reflexivity|].
  apply (init_pcb_failed_then_free (list Z) demo_alloc demo_free
           demo_translate demo_translate (demo_proc 0x5000) (demo_proc 0)
           (demo_machine [] Byte.x00) (demo_machine [] Byte.x00)).
  reflexivity.
Defined.

(** Frame 0x1000 allocated and released again: it is back on the free
    list. *)
Lemma free_after_init_returns_page_witness :
  let '(_, p', m') :=
    processor_init_pcb demo_alloc demo_translate (demo_proc 0)
      (demo_machine [0x1000] Byte.x00) in
  (processor_free_pcb demo_free demo_translate p' m').1.1 = 0 /\
  phys (processor_free_pcb demo_free demo_translate p' m').2 = [0x1000].
Proof.
  pose proof (free_after_init_returns_page (list Z) demo_alloc demo_free
                demo_translate demo_translate (demo_proc 0)) as Hw.
  destruct (processor_init_pcb demo_alloc demo_translate (demo_proc 0)
              (demo_machine [0x1000] Byte.x00)) as [[r p'] m'] eqn:Hinit.
  assert (Hr : r = 0) by (injection Hinit as <- _ _; reflexivity).
  assert (Hphys : phys m' = []) by (injection Hinit as _ _ <-; reflexivity).
  subst r.
  rewrite (Hw p' (demo_machine [0x1000] Byte.x00) m' (fun _ => eq_refl) Hinit).
  cbn [fst snd phys demo_machine demo_alloc demo_free].
  rewrite Hphys. split; reflexivity.
Defined.

(** With frame 0x1000 allocated, the byte at 0x2000 is as before. *)
Lemma processor_init_pcb_frame_witness :
  length (fpu (demo_machine [0x1000] Byte.x01)) = FXSAVE_SIZE /\
  let '(r, p', m') :=
    processor_init_pcb demo_alloc demo_translate (demo_proc 0)
      (demo_machine [0x1000] Byte.x01) in
  (r = -1 -> forall a, ram m' a = ram (demo_machine [0x1000] Byte.x01) a) /\
  (forall a, ~ in_area (fpu_state (pcb p')) a ->
             ram m' a = ram (demo_machine [0x1000] Byte.x01) a).
Proof.
  split; [reflexivity|].
  apply (processor_init_pcb_frame (list Z) demo_alloc demo_translate
           (demo_proc 0) (demo_machine [0x1000] Byte.x01)).
  reflexivity.
Defined.

(** Registers full of 0x01 bytes: byte 2 and byte 511 are still 0x01
    after the call. *)
Lemma processor_init_pcb_keeps_data_witness :
  length (fpu (demo_machine [0x1000] Byte.x01)) = FXSAVE_SIZE /\
  let '(r, p', m') :=
    processor_init_pcb demo_alloc demo_translate (demo_proc 0)
      (demo_machine [0x1000] Byte.x01) in
  length (fpu m') = FXSAVE_SIZE /\
  (r = -1 -> fpu m' = fpu (demo_machine [0x1000] Byte.x01)) /\
  (forall i : nat, (2 <= i < 24 \/ 28 <= i)%nat ->
     fpu m' !! i = fpu (demo_machine [0x1000] Byte.x01) !! i).
Proof.
  split; [reflexivity|].
  apply (processor_init_pcb_keeps_data (list Z) demo_alloc demo_translate
           (demo_proc 0) (demo_machine [0x1000] Byte.x01)).
  reflexivity.
Defined.

(** A process switched to itself. *)
Lemma switch_shared_area_witness :
  fpu (processor_switch_to (Some (demo_proc 0x1000)) (demo_proc 0x1000)
         (demo_machine [] Byte.x01))
  = replicate FXSAVE_SIZE Byte.x01.
Proof.
  apply (switch_shared_area (list Z) (demo_proc 0x1000) (demo_proc 0x1000)
           (demo_machine [] Byte.x01)); reflexivity.
Defined.

(** A process created while the registers held 0x01 bytes, switched to
    for the first time from the process at 0x2000 whose registers hold
    0xff bytes. *)
Lemma new_process_first_switch_witness :
  let created :=
    processor_init_pcb demo_alloc demo_translate (demo_proc 0)
      (demo_machine [0x1000] Byte.x01) in
  let later : machine (list Z) :=
    {| phys := []; fpu := replicate FXSAVE_SIZE Byte.xff;
       ram := ram created.2 |} in
  let regs :=
    fpu (processor_switch_to (Some (demo_proc 0x2000)) created.1.2 later) in
  image_fcw regs = 0x37F /\ image_mxcsr regs = 0x1F80 /\
  regs !! 2%nat = Some Byte.x01.
Proof.
  cbv zeta.
  destruct (processor_init_pcb demo_alloc demo_translate (demo_proc 0)
              (demo_machine [0x1000] Byte.x01)) as [[r p'] m'] eqn:Hinit.
  assert (Hr : r = 0) by (injection Hinit as <- _ _; reflexivity).
  assert (Hp : p' = demo_proc 0x1000) by (injection Hinit as _ <- _; reflexivity).
  subst r. cbn [fst snd].
  pose proof (new_process_first_switch (list Z) demo_alloc demo_translate
                (demo_proc 0) p' (demo_machine [0x1000] Byte.x01) m'
                {| phys := []; fpu := replicate FXSAVE_SIZE Byte.xff;
                   ram := ram m' |}
                (Some (demo_proc 0x2000)) eq_refl Hinit
                (fun _ _ => eq_refl)) as Hw.
  cbv zeta in Hw.
  destruct Hw as (Hfcw & Hmxcsr & Hrest).
  - split; [reflexivity|]. rewrite Hp. right. apply Z.leb_le. reflexivity.
  - split; [exact Hfcw|]. split; [exact Hmxcsr|].
    rewrite (Hrest 2%nat) by lia. reflexivity.
Defined.

End Pcb.

(** ** The kernel log: [syslog_write], [vkprintf] and [kprintf] *)

Module Syslog.

Abbreviation char := Byte.byte.

Definition NUL : char := Byte.x00.

(** What reaches the serial line and the root terminal, oldest first. *)
Inductive event : Set :=
| EvSerialDbgch (c : char)
| EvTtyPutc (c : char)
| EvTtyFlush.

(** [strlen] of [string.h], on the bytes from a pointer onwards: the
    number of bytes before the first NUL. *)
Fixpoint strlen (s : list char) : nat :=
  match s with
  | [] => O
  | c :: s => if Byte.eqb c NUL then O else S (strlen s)
  end.

Section Formatting.

(** Whether the kernel is built with [__SERIAL_DEBUG]. *)
Variable SERIAL_DEBUG : bool.

(** The formatting engine behind [vsnprintf], which is not part of the
    sources at hand: format strings, argument lists, and the bytes a
    format and its arguments expand to when there is room for all of
    them. *)
Variable format_string : Type.
Variable va_list : Type.
Variable expand : format_string -> va_list -> list char.

(** [vsnprintf(s, size, fmt, ap)] by its C library contract: the first
    [size - 1] bytes of the expansion go to [s], a NUL follows them, and
    the rest of [s] stays as it was; nothing is written when [size] is
    zero. *)
Definition vsnprintf (s : list char) (size : nat) (fmt : format_string)
    (ap : va_list) : list char :=
  match size with
  | O => s
  | S room =>
      let written := take room (expand fmt ap) in
      written ++ NUL :: drop (S (length written)) s
  end.

(** The body of the loop of [syslog_write] for one character. *)
Definition putc_events (c : char) : list event :=
  (if SERIAL_DEBUG then [EvSerialDbgch c] else []) ++ [EvTtyPutc c].

(** The [while (tmp_len--)] loop of [syslog_write]; [tmp_s] is the bytes
    from the pointer onwards. *)
Fixpoint syslog_write_loop (tmp_s : list char) (tmp_len : nat)
    (log : list event) : list event :=
  match tmp_len with
  | O => log
  | S tmp_len =>
      let c := hd NUL tmp_s in
      syslog_write_loop (tl tmp_s) tmp_len (log ++ putc_events c)
  end.

Definition syslog_write (s : list char) (len : nat) (log : list event)
    : list event :=
  let log := syslog_write_loop s len log in
  log ++ [EvTtyFlush].

(** [vkprintf]: [char buffer[1024] = {0}], filled by [vsnprintf] and
    written up to its [strlen]. *)
Definition vkprintf (fmt : format_string) (ap : va_list) (log : list event)
    : list event :=
  let buffer := replicate 1024 NUL in
  let buffer := vsnprintf buffer (length buffer) fmt ap in
  syslog_write buffer (strlen buffer) log.

(** [kprintf] packs its variable arguments and calls [vkprintf]. *)
Definition kprintf (fmt : format_string) (ap : va_list) (log : list event)
    : list event :=
  vkprintf fmt ap log.

(** The bytes of [s] before its first NUL. *)
Definition until_nul (s : list char) : list char := take (strlen s) s.

(** *** Properties *)

Lemma strlen_le s : (strlen s <= length s)%nat.
Proof.
  induction s as [|c s IH]; cbn; [lia|].
  destruct (Byte.eqb c NUL); lia.
Qed.

Lemma strlen_app_nul s r : strlen (s ++ NUL :: r) = strlen (s ++ [NUL]).
Proof.
  induction s as [|c s IH]; cbn; [reflexivity|].
  destruct (Byte.eqb c NUL); [reflexivity|]. now rewrite IH.
Qed.

Lemma strlen_snoc_nul s : strlen (s ++ [NUL]) = strlen s.
Proof.
  induction s as [|c s IH]; cbn; [reflexivity|].
  destruct (Byte.eqb c NUL); [reflexivity|]. now rewrite IH.
Qed.

Lemma syslog_write_loop_take s len log :
  (len <= length s)%nat ->
  syslog_write_loop s len log = log ++ flat_map putc_events (take len s).
Proof.
  revert s log. induction len as [|len IH]; intros s log Hlen.
  - cbn. now rewrite app_nil_r.
  - destruct s as [|c s]; [cbn in Hlen; lia|].
    cbn [syslog_write_loop hd tl take flat_map].
    rewrite IH by (cbn in Hlen; lia).
    now rewrite <- app_assoc.
Qed.

Lemma until_nul_no_nul s : NUL ∉ until_nul s.
Proof.
  unfold until_nul. induction s as [|c s IH]; cbn.
  - apply not_elem_of_nil.
  - destruct (Byte.eqb c NUL) eqn:Hc; [apply not_elem_of_nil|].
    cbn. apply not_elem_of_cons. split; [|exact IH].
    intros <-. discriminate Hc.
Qed.

Lemma until_nul_prefix s : until_nul s `prefix_of` s.
Proof. unfold until_nul. apply prefix_take. Qed.

(** C10.  Whatever the format and its arguments expand to, [vkprintf]
    (and so [kprintf]) sends to the terminal exactly the bytes of the
    first 1023 bytes of the expansion that come before the first NUL
    among them, then flushes: at most 1023 characters, none of them NUL,
    and nothing of the expansion past byte 1023 or past a NUL. *)
Theorem vkprintf_emits (fmt : format_string) (ap : va_list) (log : list event) :
  let sent := until_nul (take 1023 (expand fmt ap)) in
  vkprintf fmt ap log = log ++ flat_map putc_events sent ++ [EvTtyFlush] /\
  kprintf fmt ap log = vkprintf fmt ap log /\
  (length sent <= 1023)%nat /\
  sent `prefix_of` expand fmt ap /\
  NUL ∉ sent.
Proof.
  cbv zeta. set (out := take 1023 (expand fmt ap)).
  assert (Hout : (length out <= 1023)%nat).
  { unfold out. rewrite length_take. lia. }
  split; [|split; [reflexivity|split; [|split]]].
  - unfold vkprintf, syslog_write.
    rewrite length_replicate.
    change (vsnprintf (replicate 1024 NUL) 1024 fmt ap)
      with (out ++ NUL :: drop (S (length out)) (replicate 1024 NUL)).
    rewrite strlen_app_nul, strlen_snoc_nul.
    rewrite syslog_write_loop_take.
    + rewrite <- app_assoc. do 3 f_equal.
      rewrite take_app_le by apply strlen_le. reflexivity.
    + rewrite length_app. pose proof (strlen_le out). lia.
  - pose proof (strlen_le out) as Hs. unfold until_nul.
    rewrite length_take. lia.
  - etransitivity; [apply until_nul_prefix|]. apply prefix_take.
  - apply until_nul_no_nul.
Qed.

End Formatting.

(** *** What each sink receives

    The log seen from its two ends: the characters handed to the root
    terminal, the characters handed to the serial line, and the number
    of times the terminal was flushed. *)

Definition tty_chars (log : list event) : list char :=
  omap (fun e => match e with EvTtyPutc c => Some c | _ => None end) log.

Definition serial_chars (log : list event) : list char :=
  omap (fun e => match e with EvSerialDbgch c => Some c | _ => None end) log.

Definition flushes (log : list event) : nat :=
  length (omap (fun e => match e with EvTtyFlush => Some e | _ => None end) log).

Lemma tty_chars_putc sd (s : list char) :
  tty_chars (flat_map (putc_events sd) s) = s.
Proof.
  unfold tty_chars, putc_events.
  induction s as [|c s IH]; [reflexivity|].
  cbn [flat_map]. rewrite omap_app, IH. now destruct sd.
Qed.

Lemma serial_chars_putc sd (s : list char) :
  serial_chars (flat_map (putc_events sd) s) = if sd then s else [].
Proof.
  unfold serial_chars, putc_events.
  induction s as [|c s IH]; [now destruct sd|].
  cbn [flat_map]. rewrite omap_app, IH. now destruct sd.
Qed.

Lemma flushes_putc sd (s : list char) :
  flushes (flat_map (putc_events sd) s) = O.
Proof.
  unfold flushes, putc_events.
  induction s as [|c s IH]; [reflexivity|].
  cbn [flat_map]. rewrite omap_app, length_app, IH. now destruct sd.
Qed.

Lemma syslog_write_log sd s len log :
  (len <= length s)%nat ->
  syslog_write sd s len log
  = log ++ flat_map (putc_events sd) (take len s) ++ [EvTtyFlush].
Proof.
  intros Hlen. unfold syslog_write.
  rewrite syslog_write_loop_take by exact Hlen. now rewrite <- app_assoc.
Qed.

(** X1.  [syslog_write(s, len)], with [len] bytes readable at [s], hands
    the terminal exactly the first [len] bytes of [s], in order and
    NULs included, and flushes it once; the serial line receives the
    same bytes when the kernel is built with [__SERIAL_DEBUG] and
    nothing otherwise. *)
Theorem syslog_write_sinks (sd : bool) (s : list char) (len : nat)
    (log : list event) :
  (len <= length s)%nat ->
  tty_chars (syslog_write sd s len log) = tty_chars log ++ take len s /\
  serial_chars (syslog_write sd s len log)
    = serial_chars log ++ (if sd then take len s else []) /\
  flushes (syslog_write sd s len log) = S (flushes log).
Proof.
  intros Hlen. rewrite syslog_write_log by exact Hlen.
  unfold tty_chars, serial_chars, flushes.
  rewrite !omap_app, !length_app.
  fold (tty_chars (flat_map (putc_events sd) (take len s))).
  fold (serial_chars (flat_map (putc_events sd) (take len s))).
  fold (flushes (flat_map (putc_events sd) (take len s))).
  rewrite tty_chars_putc, serial_chars_putc, flushes_putc.
  cbn. rewrite !app_nil_r. repeat split. lia.
Qed.

Section SinkFacts.

Variable format_string : Type.
Variable va_list : Type.
Variable expand : format_string -> va_list -> list char.

#[local] Abbreviation vkprintf sd :=
  (vkprintf sd format_string va_list expand).
#[local] Abbreviation kprintf sd :=
  (kprintf sd format_string va_list expand).

(** The buffer [vkprintf] hands to [syslog_write], and how much of it. *)
Lemma vkprintf_log sd fmt ap log :
  vkprintf sd fmt ap log
  = log ++ flat_map (putc_events sd) (until_nul (take 1023 (expand fmt ap)))
        ++ [EvTtyFlush].
Proof.
  set (out := take 1023 (expand fmt ap)).
  unfold Syslog.vkprintf. rewrite length_replicate.
  change (vsnprintf format_string va_list expand (replicate 1024 NUL) 1024 fmt ap)
    with (out ++ NUL :: drop (S (length out)) (replicate 1024 NUL)).
  rewrite strlen_app_nul, strlen_snoc_nul.
  rewrite syslog_write_log.
  - rewrite take_app_le by apply strlen_le. reflexivity.
  - rewrite length_app. pose proof (strlen_le out). lia.
Qed.

Lemma strlen_no_nul (s : list char) : NUL ∉ s -> strlen s = length s.
Proof.
  induction s as [|c s IH]; intros Hs; [reflexivity|].
  apply not_elem_of_cons in Hs as [Hc Hs]. cbn.
  destruct (Byte.eqb c NUL) eqn:Heq.
  - apply Byte.byte_dec_bl in Heq. congruence.
  - now rewrite IH.
Qed.

(** X2.  What [vkprintf] hands to the terminal does not depend on
    [__SERIAL_DEBUG]; with it the serial line receives the same
    characters as the terminal, without it nothing.  Each call flushes
    the terminal once. *)
Theorem vkprintf_serial_debug (fmt : format_string) (ap : va_list)
    (log : list event) :
  let sent := until_nul (take 1023 (expand fmt ap)) in
  tty_chars (vkprintf true fmt ap log) = tty_chars log ++ sent /\
  tty_chars (vkprintf false fmt ap log) = tty_chars log ++ sent /\
  serial_chars (vkprintf true fmt ap log) = serial_chars log ++ sent /\
  serial_chars (vkprintf false fmt ap log) = serial_chars log /\
  (forall sd, flushes (vkprintf sd fmt ap log) = S (flushes log)).
Proof.
  cbv zeta.
  assert (Hsink : forall sd,
    tty_chars (vkprintf sd fmt ap log)
      = tty_chars log ++ until_nul (take 1023 (expand fmt ap)) /\
    serial_chars (vkprintf sd fmt ap log)
      = serial_chars log
        ++ (if sd then until_nul (take 1023 (expand fmt ap)) else []) /\
    flushes (vkprintf sd fmt ap log) = S (flushes log)).
  { intros sd. rewrite vkprintf_log.
    unfold tty_chars, serial_chars, flushes.
    rewrite !omap_app, !length_app.
    fold (tty_chars (flat_map (putc_events sd)
                       (until_nul (take 1023 (expand fmt ap))))).
    fold (serial_chars (flat_map (putc_events sd)
                          (until_nul (take 1023 (expand fmt ap))))).
    fold (flushes (flat_map (putc_events sd)
                     (until_nul (take 1023 (expand fmt ap))))).
    rewrite tty_chars_putc, serial_chars_putc, flushes_putc.
    cbn. rewrite !app_nil_r. repeat split. lia. }
  destruct (Hsink true) as (Ht & Hs & _).
  destruct (Hsink false) as (Ht' & Hs' & _).
  rewrite app_nil_r in Hs'.
  repeat split; try assumption. intros sd. apply Hsink.
Qed.

(** X3.  An expansion of at most 1023 bytes with no NUL among them
    reaches the terminal whole: [kprintf] neither truncates nor cuts
    it. *)
Theorem kprintf_whole (sd : bool) (fmt : format_string) (ap : va_list)
    (log : list event) :
  (length (expand fmt ap) <= 1023)%nat ->
  NUL ∉ expand fmt ap ->
  tty_chars (kprintf sd fmt ap log) = tty_chars log ++ expand fmt ap.
Proof.
  intros Hlen Hnul. unfold Syslog.kprintf. rewrite vkprintf_log.
  rewrite take_ge by exact Hlen.
  unfold until_nul. rewrite strlen_no_nul by exact Hnul.
  rewrite firstn_all.
  unfold tty_chars. rewrite !omap_app.
  fold (tty_chars (flat_map (putc_events sd) (expand fmt ap))).
  rewrite tty_chars_putc. cbn. now rewrite app_nil_r.
Qed.

(** An expansion longer than the buffer loses everything from byte 1023
    on, however it ends. *)
Lemma kprintf_truncates (sd : bool) (fmt : format_string) (ap : va_list)
    (log : list event) :
  NUL ∉ expand fmt ap ->
  tty_chars (kprintf sd fmt ap log)
  = tty_chars log ++ take 1023 (expand fmt ap).
Proof.
  intros Hnul. unfold Syslog.kprintf. rewrite vkprintf_log.
  unfold until_nul. rewrite strlen_no_nul.
  - rewrite firstn_all. unfold tty_chars. rewrite !omap_app.
    fold (tty_chars (flat_map (putc_events sd) (take 1023 (expand fmt ap)))).
    rewrite tty_chars_putc. cbn. now rewrite app_nil_r.
  - intros Hin. apply Hnul.
    apply elem_of_take in Hin as (i & Hi & _).
    eapply list_elem_of_lookup_2, Hi.
Qed.

End SinkFacts.

(** Formats that are their own expansion, to run [kprintf] on. *)
Definition literal (fmt : list char) (ap : unit) : list char := fmt.

Lemma syslog_write_sinks_witness :
  tty_chars (syslog_write true [Byte.x48; Byte.x79; Byte.x72; Byte.x61] 2 [])
  = [Byte.x48; Byte.x79].
Proof.
  apply (syslog_write_sinks true [Byte.x48; Byte.x79; Byte.x72; Byte.x61] 2 []).
  cbn. lia.
Defined.

Lemma kprintf_whole_witness :
  tty_chars (kprintf false (list char) unit literal
               [Byte.x48; Byte.x79; Byte.x72; Byte.x61] tt [])
  = [Byte.x48; Byte.x79; Byte.x72; Byte.x61].
Proof.
  apply (kprintf_whole (list char) unit literal false
           [Byte.x48; Byte.x79; Byte.x72; Byte.x61] tt []).
  - cbn. lia.
  - unfold literal. rewrite !elem_of_cons, elem_of_nil.
    intros [H|[H|[H|[H|[]]]]]; discriminate H.
Defined.

End Syslog.

(** ** The Per-Processor Orchestrator on several cores:
       [processor_init], statement by statement *)

Module Smp.

Import FeatureEnabler.

(** The statements of [processor_init], in program order, and the two
    ways a core is finished with it. *)
Inductive label : Set :=
| L_dynalloc        (* cur_cpu = dynalloc(sizeof(struct cpu_info)); *)
| L_assert          (* __assert(cur_cpu != NULL); *)
| L_memset          (* memset(cur_cpu, 0, sizeof(struct cpu_info)); *)
| L_write_gs        (* amd64_write_gs_base((uintptr_t)cur_cpu); *)
| L_sse_test        (* if (is_sse_supported()) *)
| L_cr0_read        (* reg_tmp = amd64_read_cr0(); *)
| L_cr0_clear       (* reg_tmp &= ~(__BIT(2)); *)
| L_cr0_set         (* reg_tmp |= __BIT(1); *)
| L_cr0_write       (* amd64_write_cr0(reg_tmp); *)
| L_cr4_read        (* reg_tmp = amd64_read_cr4(); *)
| L_cr4_set         (* reg_tmp |= 3 << 9; *)
| L_cr4_write       (* amd64_write_cr4(reg_tmp); *)
| L_panic           (* panic("SSE/SSE2 not supported!\n"); *)
| L_lock            (* CPU_INFO_LOCK(cur_cpu); *)
| L_init_tss        (* init_tss(cur_cpu); *)
| L_acpi_test       (* if (!__TEST(init_flags, INIT_FLAG_ACPI)) *)
| L_acpi_flag       (* init_flags |= INIT_FLAG_ACPI; *)
| L_acpi_parse      (* acpi_parse_madt(cur_cpu); *)
| L_ioapic_test     (* if (!__TEST(init_flags, INIT_FLAG_IOAPIC)) *)
| L_ioapic_flag     (* init_flags |= INIT_FLAG_IOAPIC; *)
| L_ioapic_init     (* ioapic_init(); *)
| L_lapic_base      (* cur_cpu->lapic_base = acpi_get_lapic_base(); *)
| L_unlock          (* CPU_INFO_UNLOCK(cur_cpu); *)
| L_lapic_init      (* lapic_init(); *)
| L_spectre         (* if (try_spectre_mitigate != NULL) try_spectre_mitigate(); *)
| L_sti             (* __ASMV("sti"); *)
| L_done            (* returned *)
| L_halted.         (* stopped in panic or a failed assertion *)

Definition INIT_FLAG_IOAPIC : Z := 0x00000001.
Definition INIT_FLAG_ACPI : Z := 0x00000002.

(** Modelled from the spec: [struct cpu_info] of [machine/cpu.h], which
    is not part of the sources at hand; of its attributes ("identity, a
    lock, the discovered local-interrupt-controller base address, a
    reference to its task-state segment") those that [processor_init]
    touches.  [CPU_INFO_LOCK(info)] and [CPU_INFO_UNLOCK(info)], from
    the same header, take and give back the lock of the descriptor they
    are handed: [lock] tells whether it is held. *)
Record cpu_info := CpuInfo {
  lock : bool;
  lapic_base : Z;
  tss : bool
}.

(** What [memset(cur_cpu, 0, ...)] leaves. *)
Definition zeroed : cpu_info :=
  {| lock := false; lapic_base := 0; tss := false |}.

(** What is private to a core: where it is in [processor_init], its
    local [cur_cpu] (an index into the kernel heap, [None] for a null
    pointer), its GS base, what CPUID reports in EDX, CR0 and CR4, and
    its interrupt flag. *)
Record core := Core {
  at_pc : label;
  cur_cpu : option nat;
  gs_base : option nat;
  cpuid_edx : Z;
  core_cr0 : Z;
  core_cr4 : Z;
  intr_on : bool
}.

(** Calls into the rest of the kernel, by the core that made them:
    [init_tss] (which writes and loads the task-state segment),
    [acpi_parse_madt], [ioapic_init], [lapic_init], the Spectre
    mitigation hook, and [panic] or a failed [__assert].  Their bodies
    are not part of the sources at hand; what they are asked and in
    which order is. *)
Inductive event : Set :=
| EvTssLoad (c : nat)
| EvMadtParse (c : nat)
| EvIoapicInit (c : nat)
| EvLapicInit (c : nat)
| EvSpectreMitigate (c : nat)
| EvPanic (c : nat).

(** What all cores share: the cores themselves, the kernel heap holding
    the descriptors [dynalloc] handed out ([None] until initialised) and
    the number of descriptors it can hold, the two function statics
    [init_flags] and [reg_tmp], the local-controller base the ACPI code
    has recorded, and the log of calls. *)
Record world := World {
  cores : list core;
  heap : list (option cpu_info);
  heap_room : nat;
  init_flags : Z;
  shared_reg_tmp : Z;
  acpi_lapic_base : Z;
  trace : list event
}.

Definition set_cores (cs : list core) (w : world) : world :=
  {| cores := cs; heap := heap w; heap_room := heap_room w;
     init_flags := init_flags w; shared_reg_tmp := shared_reg_tmp w;
     acpi_lapic_base := acpi_lapic_base w; trace := trace w |}.

Definition set_heap (h : list (option cpu_info)) (w : world) : world :=
  {| cores := cores w; heap := h; heap_room := heap_room w;
     init_flags := init_flags w; shared_reg_tmp := shared_reg_tmp w;
     acpi_lapic_base := acpi_lapic_base w; trace := trace w |}.

Definition set_init_flags (f : Z) (w : world) : world :=
  {| cores := cores w; heap := heap w; heap_room := heap_room w;
     init_flags := f; shared_reg_tmp := shared_reg_tmp w;
     acpi_lapic_base := acpi_lapic_base w; trace := trace w |}.

Definition set_reg_tmp (t : Z) (w : world) : world :=
  {| cores := cores w; heap := heap w; heap_room := heap_room w;
     init_flags := init_flags w; shared_reg_tmp := t;
     acpi_lapic_base := acpi_lapic_base w; trace := trace w |}.

Definition set_acpi_lapic_base (b : Z) (w : world) : world :=
  {| cores := cores w; heap := heap w; heap_room := heap_room w;
     init_flags := init_flags w; shared_reg_tmp := shared_reg_tmp w;
     acpi_lapic_base := b; trace := trace w |}.

Definition emit (e : event) (w : world) : world :=
  {| cores := cores w; heap := heap w; heap_room := heap_room w;
     init_flags := init_flags w; shared_reg_tmp := shared_reg_tmp w;
     acpi_lapic_base := acpi_lapic_base w; trace := trace w ++ [e] |}.

Definition goto (l : label) (k : core) : core :=
  {| at_pc := l; cur_cpu := cur_cpu k; gs_base := gs_base k;
     cpuid_edx := cpuid_edx k; core_cr0 := core_cr0 k; core_cr4 := core_cr4 k;
     intr_on := intr_on k |}.

Definition set_cur_cpu (p : option nat) (k : core) : core :=
  {| at_pc := at_pc k; cur_cpu := p; gs_base := gs_base k;
     cpuid_edx := cpuid_edx k; core_cr0 := core_cr0 k; core_cr4 := core_cr4 k;
     intr_on := intr_on k |}.

Definition set_gs_base (p : option nat) (k : core) : core :=
  {| at_pc := at_pc k; cur_cpu := cur_cpu k; gs_base := p;
     cpuid_edx := cpuid_edx k; core_cr0 := core_cr0 k; core_cr4 := core_cr4 k;
     intr_on := intr_on k |}.

Definition set_cr0 (v : Z) (k : core) : core :=
  {| at_pc := at_pc k; cur_cpu := cur_cpu k; gs_base := gs_base k;
     cpuid_edx := cpuid_edx k; core_cr0 := v; core_cr4 := core_cr4 k;
     intr_on := intr_on k |}.

Definition set_cr4 (v : Z) (k : core) : core :=
  {| at_pc := at_pc k; cur_cpu := cur_cpu k; gs_base := gs_base k;
     cpuid_edx := cpuid_edx k; core_cr0 := core_cr0 k; core_cr4 := v;
     intr_on := intr_on k |}.

Definition set_intr_on (b : bool) (k : core) : core :=
  {| at_pc := at_pc k; cur_cpu := cur_cpu k; gs_base := gs_base k;
     cpuid_edx := cpuid_edx k; core_cr0 := core_cr0 k; core_cr4 := core_cr4 k;
     intr_on := b |}.

(** The descriptor [cur_cpu] points at, and a store through it. *)
Definition deref (p : option nat) (w : world) : option cpu_info :=
  match p with
  | Some a => mjoin (heap w !! a)
  | None => None
  end.

Definition store (p : option nat) (d : cpu_info) (w : world) : world :=
  match p with
  | Some a => set_heap (<[a := Some d]> (heap w)) w
  | None => w
  end.

Section Orchestrator.

(** The platform: the local-controller base that the MADT reports, and
    whether a Spectre mitigation hook is linked in
    ([try_spectre_mitigate != NULL]). *)
Variable MADT_LAPIC_BASE : Z.
Variable try_spectre_mitigate : bool.

(** Modelled from the spec: [dynalloc] of [vm/dynalloc.h], which is not
    part of the sources at hand ("allocate ... a CPU descriptor; failure
    is fatal").  It hands out the next free cell of the heap,
    uninitialised, or a null pointer when the heap is full. *)
Definition dynalloc (w : world) : option nat * world :=
  if decide (length (heap w) < heap_room w)%nat
  then (Some (length (heap w)), set_heap (heap w ++ [None]) w)
  else (None, w).

(** An assignment to a field of the descriptor [p] points at. *)
Definition update (p : option nat) (f : cpu_info -> cpu_info) (w : world)
    : world :=
  match deref p w with
  | Some d => store p (f d) w
  | None => w
  end.

Definition set_lock (b : bool) (d : cpu_info) : cpu_info :=
  {| lock := b; lapic_base := lapic_base d; tss := tss d |}.

Definition set_lapic_base (a : Z) (d : cpu_info) : cpu_info :=
  {| lock := lock d; lapic_base := a; tss := tss d |}.

Definition set_tss (b : bool) (d : cpu_info) : cpu_info :=
  {| lock := lock d; lapic_base := lapic_base d; tss := b |}.

(** [init_tss]: [write_tss(cur_cpu, desc)] gives the descriptor its
    task-state segment and [tss_load()] loads the task register of the
    calling core. *)
Definition init_tss (c : nat) (cur_cpu : option nat) (w : world) : world :=
  let w := update cur_cpu (set_tss true) w in
  emit (EvTssLoad c) w.

(** The statement core [c] is at, executed: the core and the world it
    leaves.  Statements are atomic.  A core that has returned or halted
    does nothing, and a core spinning on a held lock stays where it
    is. *)
Definition statement (c : nat) (k : core) (w : world) : core * world :=
  match at_pc k with
  | L_dynalloc =>
      let '(p, w) := dynalloc w in
      (goto L_assert (set_cur_cpu p k), w)
  | L_assert =>
      match cur_cpu k with
      | Some _ => (goto L_memset k, w)
      | None => (goto L_halted k, emit (EvPanic c) w)
      end
  | L_memset => (goto L_write_gs k, store (cur_cpu k) zeroed w)
  | L_write_gs => (goto L_sse_test (set_gs_base (cur_cpu k) k), w)
  | L_sse_test =>
      if is_sse_supported (cpuid_edx k) then (goto L_cr0_read k, w)
      else (goto L_panic k, w)
  | L_cr0_read => (goto L_cr0_clear k, set_reg_tmp (core_cr0 k) w)
  | L_cr0_clear =>
      (goto L_cr0_set k,
       set_reg_tmp (Z.land (shared_reg_tmp w) (not64 (__BIT 2))) w)
  | L_cr0_set =>
      (goto L_cr0_write k,
       set_reg_tmp (Z.lor (shared_reg_tmp w) (__BIT 1)) w)
  | L_cr0_write => (goto L_cr4_read (set_cr0 (shared_reg_tmp w) k), w)
  | L_cr4_read => (goto L_cr4_set k, set_reg_tmp (core_cr4 k) w)
  | L_cr4_set =>
      (goto L_cr4_write k,
       set_reg_tmp (Z.lor (shared_reg_tmp w) (Z.shiftl 3 9)) w)
  | L_cr4_write => (goto L_lock (set_cr4 (shared_reg_tmp w) k), w)
  | L_panic => (goto L_halted k, emit (EvPanic c) w)
  | L_lock =>
      match deref (cur_cpu k) w with
      | Some d =>
          if lock d then (k, w)
          else (goto L_init_tss k, store (cur_cpu k) (set_lock true d) w)
      | None => (k, w)
      end
  | L_init_tss => (goto L_acpi_test k, init_tss c (cur_cpu k) w)
  | L_acpi_test =>
      if negb (__TEST (init_flags w) INIT_FLAG_ACPI)
      then (goto L_acpi_flag k, w)
      else (goto L_ioapic_test k, w)
  | L_acpi_flag =>
      (goto L_acpi_parse k,
       set_init_flags (Z.lor (init_flags w) INIT_FLAG_ACPI) w)
  | L_acpi_parse =>
      (goto L_ioapic_test k,
       emit (EvMadtParse c) (set_acpi_lapic_base MADT_LAPIC_BASE w))
  | L_ioapic_test =>
      if negb (__TEST (init_flags w) INIT_FLAG_IOAPIC)
      then (goto L_ioapic_flag k, w)
      else (goto L_lapic_base k, w)
  | L_ioapic_flag =>
      (goto L_ioapic_init k,
       set_init_flags (Z.lor (init_flags w) INIT_FLAG_IOAPIC) w)
  | L_ioapic_init => (goto L_lapic_base k, emit (EvIoapicInit c) w)
  | L_lapic_base =>
      (goto L_unlock k,
       update (cur_cpu k) (set_lapic_base (acpi_lapic_base w)) w)
  | L_unlock => (goto L_lapic_init k, update (cur_cpu k) (set_lock false) w)
  | L_lapic_init => (goto L_spectre k, emit (EvLapicInit c) w)
  | L_spectre =>
      if try_spectre_mitigate
      then (goto L_sti k, emit (EvSpectreMitigate c) w)
      else (goto L_sti k, w)
  | L_sti => (goto L_done (set_intr_on true k), w)
  | L_done => (k, w)
  | L_halted => (k, w)
  end.

(** Core [c] executes one statement; the statements of the cores take
    effect in the order executed. *)
Definition step (c : nat) (w : world) : world :=
  match cores w !! c with
  | None => w
  | Some k =>
      let '(k, w) := statement c k w in
      set_cores (<[c := k]> (cores w)) w
  end.

(** [processor_init] as one piece: what the statements above do to the
    calling core and to the world when the call runs from entry to
    return with no other core in between.  The descriptor is new, so
    its lock is free when [CPU_INFO_LOCK] asks for it. *)
Definition processor_init (c : nat) (k : core) (w : world) : core * world :=
  (* Create our cpu_info structure *)
  let '(p, w) := dynalloc w in
  let k := set_cur_cpu p k in
  match cur_cpu k with
  | None => (goto L_halted k, emit (EvPanic c) w)
  | Some _ =>
      let w := store (cur_cpu k) zeroed w in
      (* Set %GS to cpu_info *)
      let k := set_gs_base (cur_cpu k) k in
      match enable_sse (cpuid_edx k)
              {| cr0 := core_cr0 k; cr4 := core_cr4 k;
                 reg_tmp := shared_reg_tmp w |} with
      | Halted _ => (goto L_halted k, emit (EvPanic c) w)
      | Ok ctrl =>
          let k := set_cr4 (cr4 ctrl) (set_cr0 (cr0 ctrl) k) in
          let w := set_reg_tmp (reg_tmp ctrl) w in
          let w := update (cur_cpu k) (set_lock true) w in
          let w := init_tss c (cur_cpu k) w in
          (* See if there are things that have not been set up,
             set them up if so... *)
          let w :=
            if negb (__TEST (init_flags w) INIT_FLAG_ACPI) then
              emit (EvMadtParse c)
                (set_acpi_lapic_base MADT_LAPIC_BASE
                   (set_init_flags (Z.lor (init_flags w) INIT_FLAG_ACPI) w))
            else w in
          let w :=
            if negb (__TEST (init_flags w) INIT_FLAG_IOAPIC) then
              emit (EvIoapicInit c)
                (set_init_flags (Z.lor (init_flags w) INIT_FLAG_IOAPIC) w)
            else w in
          let w := update (cur_cpu k) (set_lapic_base (acpi_lapic_base w)) w in
          let w := update (cur_cpu k) (set_lock false) w in
          let w := emit (EvLapicInit c) w in
          (* Use spectre mitigation if enabled *)
          let w :=
            if try_spectre_mitigate then emit (EvSpectreMitigate c) w else w in
          (goto L_done (set_intr_on true k), w)
      end
  end.

(** [n] statements of core [c] in a row. *)
Fixpoint statements (n : nat) (c : nat) (k : core) (w : world)
    : core * world :=
  match n with
  | O => (k, w)
  | S n => let '(k, w) := statement c k w in statements n c k w
  end.

(** A schedule names, step by step, the core that runs next. *)
Definition run (schedule : list nat) (w : world) : world :=
  foldl (fun w c => step c w) w schedule.

(** [processor_init] from entry to return when nothing else runs in
    between takes 25 statements. *)
Definition alone (c : nat) : list nat := replicate 25 c.

(** A core about to call [processor_init]. *)
Definition entering (edx cr0 cr4 : Z) : core :=
  {| at_pc := L_dynalloc; cur_cpu := None; gs_base := None;
     cpuid_edx := edx; core_cr0 := cr0; core_cr4 := cr4; intr_on := false |}.

(** The kernel before any core has called [processor_init]:
    [static uint8_t init_flags = 0], nothing allocated, nothing
    discovered. *)
Definition boot (cs : list core) (room : nat) : world :=
  {| cores := cs; heap := []; heap_room := room; init_flags := 0;
     shared_reg_tmp := 0; acpi_lapic_base := 0; trace := [] |}.

Definition is_madt_parse (e : event) : bool :=
  match e with EvMadtParse _ => true | _ => false end.

Definition is_ioapic_init (e : event) : bool :=
  match e with EvIoapicInit _ => true | _ => false end.

(** How often the two halves of platform discovery have run. *)
Definition madt_parses (w : world) : nat :=
  length (List.filter is_madt_parse (trace w)).

Definition ioapic_inits (w : world) : nat :=
  length (List.filter is_ioapic_init (trace w)).

(** Every core has returned from [processor_init]. *)
Definition all_done (w : world) : bool :=
  forallb (fun k => match at_pc k with L_done => true | _ => false end) (cores w).

(** The descriptor locks held at the moment. *)
Definition locks_held (w : world) : list nat :=
  omap (fun k => match deref (cur_cpu k) w with
                 | Some d => if lock d then cur_cpu k else None
                 | None => None
                 end) (cores w).

End Orchestrator.

(** *** Properties *)

(** From the feature test to the return, for the first core. *)
Lemma first_core_epilogue base spectre edx cr0 cr4 io others r :
  let w := run base spectre (replicate 20 0%nat)
             (World (Core L_cr0_read (Some 0%nat) (Some 0%nat) edx cr0 cr4 io
                       :: others)
                [Some zeroed] (S r) 0 0 0 []) in
  tail (cores w) = others /\
  (at_pc <$> head (cores w)) = Some L_done /\
  (intr_on <$> head (cores w)) = Some true /\
  heap w = [Some {| lock := false; lapic_base := base; tss := true |}] /\
  init_flags w = Z.lor INIT_FLAG_ACPI INIT_FLAG_IOAPIC /\
  madt_parses w = 1%nat /\
  ioapic_inits w = 1%nat.
Proof. destruct spectre; repeat split; reflexivity. Qed.

(** *** [processor_init] and its statements

    Twenty-five statements of one core in a row, from the entry of
    [processor_init], do what [processor_init] says; the proof runs both
    sides on a symbolic core and world, one branch of the function at a
    time. *)

Lemma deref_fresh cs h x r f t b tr :
  deref (Some (length h)) (World cs (h ++ [x]) r f t b tr) = x.
Proof. unfold deref. cbn [heap]. now rewrite list_lookup_middle. Qed.

Lemma store_fresh cs h x d r f t b tr :
  store (Some (length h)) d (World cs (h ++ [x]) r f t b tr)
  = World cs (h ++ [Some d]) r f t b tr.
Proof.
  unfold store, set_heap.
  cbn [heap cores heap_room init_flags shared_reg_tmp acpi_lapic_base trace].
  f_equal. rewrite insert_app_r_alt by lia.
  now replace (length h - length h)%nat with 0%nat by lia.
Qed.

Lemma update_fresh cs h d g r f t b tr :
  update (Some (length h)) g (World cs (h ++ [Some d]) r f t b tr)
  = World cs (h ++ [Some (g d)]) r f t b tr.
Proof. unfold update. now rewrite deref_fresh, store_fresh. Qed.

Lemma enable_sse_ok edx c :
  is_sse_supported edx = true ->
  enable_sse edx c
  = Ok {| cr0 := Z.lor (Z.land (cr0 c) (not64 (__BIT 2))) (__BIT 1);
          cr4 := Z.lor (cr4 c) (Z.shiftl 3 9);
          reg_tmp := Z.lor (cr4 c) (Z.shiftl 3 9) |}.
Proof. intros Hsse. unfold enable_sse. now rewrite Hsse. Qed.

Lemma enable_sse_halted edx c :
  is_sse_supported edx = false -> enable_sse edx c = Halted sse_panic_msg.
Proof. intros Hsse. unfold enable_sse. now rewrite Hsse. Qed.

Lemma statements_S base spectre n c k w :
  statements base spectre (S n) c k w
  = let '(k', w') := statement base spectre c k w in
    statements base spectre n c k' w'.
Proof. reflexivity. Qed.

(** A term over explicit cores and worlds, computed. *)
Ltac smp_value v :=
  eval cbv beta iota zeta delta
    [statement dynalloc init_tss at_pc cur_cpu gs_base cpuid_edx core_cr0
     core_cr4 intr_on goto set_cur_cpu set_gs_base set_cr0 set_cr4
     set_intr_on cores heap heap_room init_flags shared_reg_tmp
     acpi_lapic_base trace set_cores set_heap set_init_flags
     set_reg_tmp set_acpi_lapic_base emit fst snd lock lapic_base tss
     set_lock set_tss set_lapic_base zeroed FeatureEnabler.cr0
     FeatureEnabler.cr4 FeatureEnabler.reg_tmp negb] in v.

(** What computation cannot decide: accesses to the new descriptor, and
    the tests whose outcome is a hypothesis. *)
Ltac smp_rewrite :=
  first
    [ rewrite store_fresh
    | rewrite deref_fresh
    | rewrite update_fresh
    | rewrite enable_sse_ok by assumption
    | rewrite enable_sse_halted by assumption
    | match goal with
      | H : ?b = _ |- context [if ?b then _ else _] => rewrite H
      | H : ?b = _ |- context [match ?b with _ => _ end] => rewrite H
      end ].

(** The right-hand side, one [let] or [match] at a time from the top,
    so that nothing is substituted before it has been computed. *)
Ltac smp_head :=
  repeat
    lazymatch goal with
    | |- ?L = (let x := ?v in @?b x) =>
        let v' := smp_value v in
        first
          [ progress (change v with v')
          | smp_rewrite
          | let r := eval cbv beta in (b v) in change (L = r) ]
    | |- ?L = match ?s with _ => _ end =>
        let s' := smp_value s in
        first
          [ progress (change s with s'; cbv beta iota)
          | smp_rewrite ]
    end.

(** The left-hand side, one statement at a time. *)
Ltac smp_statement :=
  rewrite statements_S;
  repeat first
    [ progress
        (match goal with
         | |- ?L = _ => let L' := smp_value L in change L with L'
         end)
    | smp_rewrite ].

Lemma statements_processor_init base spectre c k w :
  at_pc k = L_dynalloc ->
  statements base spectre 25 c k w = processor_init base spectre c k w.
Proof.
  destruct k as [pc p gs edx c0 c4 io], w as [cs h r f t b tr].
  cbn [at_pc]. intros ->.
  destruct (decide (length h < r)%nat) as [Hroom|Hroom] eqn:Hdec;
    [destruct (is_sse_supported edx) eqn:Hsse;
     [destruct (__TEST f INIT_FLAG_ACPI) eqn:Hacpi;
      [destruct (__TEST f INIT_FLAG_IOAPIC) eqn:Hio
      |destruct (__TEST (Z.lor f INIT_FLAG_ACPI) INIT_FLAG_IOAPIC) eqn:Hio];
      destruct spectre|]|].
  all: cbv beta delta [processor_init].
  all: smp_head.
  all: match goal with |- _ = ?rhs => set (R := rhs) end.
  all: do 25 smp_statement.
  all: reflexivity.
Qed.

(** *** [processor_init] from entry to return, in closed form *)

Lemma __TEST_lor a b mask :
  __TEST a mask = true -> __TEST (Z.lor a b) mask = true.
Proof.
  unfold __TEST. rewrite !negb_true_iff, !Z.eqb_neq.
  intros Ha Hab. apply Ha.
  rewrite Z.land_lor_distr_l in Hab.
  now apply Z.lor_eq_0_iff in Hab as [-> _].
Qed.

Lemma __TEST_lor_ACPI f : __TEST (Z.lor f INIT_FLAG_ACPI) INIT_FLAG_ACPI = true.
Proof.
  unfold __TEST. rewrite negb_true_iff, Z.eqb_neq.
  rewrite Z.land_lor_distr_l. intros H.
  apply Z.lor_eq_0_iff in H as [_ H]. discriminate H.
Qed.

Lemma __TEST_lor_IOAPIC f :
  __TEST (Z.lor f INIT_FLAG_IOAPIC) INIT_FLAG_IOAPIC = true.
Proof.
  unfold __TEST. rewrite negb_true_iff, Z.eqb_neq.
  rewrite Z.land_lor_distr_l. intros H.
  apply Z.lor_eq_0_iff in H as [_ H]. discriminate H.
Qed.

Lemma lor_BIT_absorb a n :
  0 <= n -> __TEST a (__BIT n) = true -> Z.lor a (__BIT n) = a.
Proof.
  intros Hn Hset. rewrite __TEST_BIT in Hset by exact Hn.
  apply Z.bits_inj'. intros i Hi.
  rewrite Z.lor_spec, __BIT_testbit by exact Hn.
  destruct (Z.eqb_spec i n) as [->|_].
  - rewrite Hset. reflexivity.
  - apply orb_false_r.
Qed.

(** The two flags are different bits. *)
Lemma __TEST_IOAPIC_lor_ACPI f :
  __TEST (Z.lor f INIT_FLAG_ACPI) INIT_FLAG_IOAPIC = __TEST f INIT_FLAG_IOAPIC.
Proof.
  unfold __TEST. rewrite Z.land_lor_distr_l.
  change (Z.land INIT_FLAG_ACPI INIT_FLAG_IOAPIC) with 0.
  now rewrite Z.lor_0_r.
Qed.

(** Both flags set, whichever of them were set before. *)
Lemma init_flags_after f :
  (if __TEST f INIT_FLAG_IOAPIC
   then if __TEST f INIT_FLAG_ACPI then f else Z.lor f INIT_FLAG_ACPI
   else Z.lor (if __TEST f INIT_FLAG_ACPI then f else Z.lor f INIT_FLAG_ACPI)
          INIT_FLAG_IOAPIC)
  = Z.lor (Z.lor f INIT_FLAG_ACPI) INIT_FLAG_IOAPIC.
Proof.
  assert (Hacpi : __TEST f INIT_FLAG_ACPI = true -> Z.lor f INIT_FLAG_ACPI = f)
    by (apply (lor_BIT_absorb f 1); lia).
  assert (Hio : forall g, __TEST g INIT_FLAG_IOAPIC = true ->
                          Z.lor g INIT_FLAG_IOAPIC = g)
    by (intros g; apply (lor_BIT_absorb g 0); lia).
  destruct (__TEST f INIT_FLAG_ACPI) eqn:Ha.
  - rewrite (Hacpi eq_refl).
    destruct (__TEST f INIT_FLAG_IOAPIC) eqn:Hi; [|reflexivity].
    now rewrite (Hio f Hi).
  - destruct (__TEST f INIT_FLAG_IOAPIC) eqn:Hi; [|reflexivity].
    rewrite <- __TEST_IOAPIC_lor_ACPI in Hi.
    now rewrite (Hio _ Hi).
Qed.

Lemma processor_init_no_room base spectre c pc p gs edx c0 c4 io cs h r f t b tr :
  ~ (length h < r)%nat ->
  processor_init base spectre c (Core pc p gs edx c0 c4 io)
    (World cs h r f t b tr)
  = (Core L_halted None gs edx c0 c4 io,
     World cs h r f t b (tr ++ [EvPanic c])).
Proof.
  intros Hroom.
  destruct (decide (length h < r)%nat) as [Hr|Hr] eqn:Hdec; [contradiction|].
  symmetry. cbv beta delta [processor_init]. smp_head. reflexivity.
Qed.

Lemma processor_init_no_sse base spectre c pc p gs edx c0 c4 io cs h r f t b tr :
  (length h < r)%nat ->
  is_sse_supported edx = false ->
  processor_init base spectre c (Core pc p gs edx c0 c4 io)
    (World cs h r f t b tr)
  = (Core L_halted (Some (length h)) (Some (length h)) edx c0 c4 io,
     World cs (h ++ [Some zeroed]) r f t b (tr ++ [EvPanic c])).
Proof.
  intros Hroom Hsse.
  destruct (decide (length h < r)%nat) as [Hr|Hr] eqn:Hdec; [|contradiction].
  symmetry. cbv beta delta [processor_init]. smp_head. reflexivity.
Qed.

Lemma processor_init_returns base spectre c pc p gs edx c0 c4 io cs h r f t b tr :
  (length h < r)%nat ->
  is_sse_supported edx = true ->
  processor_init base spectre c (Core pc p gs edx c0 c4 io)
    (World cs h r f t b tr)
  = let acpi := __TEST f INIT_FLAG_ACPI in
    let ioapic := __TEST f INIT_FLAG_IOAPIC in
    let b' := if acpi then b else base in
    (Core L_done (Some (length h)) (Some (length h)) edx
       (Z.lor (Z.land c0 (not64 (__BIT 2))) (__BIT 1))
       (Z.lor c4 (Z.shiftl 3 9)) true,
     World cs (h ++ [Some (CpuInfo false b' true)]) r
       (let f := if acpi then f else Z.lor f INIT_FLAG_ACPI in
        if ioapic then f else Z.lor f INIT_FLAG_IOAPIC)
       (Z.lor c4 (Z.shiftl 3 9)) b'
       (tr ++ [EvTssLoad c]
           ++ (if acpi then [] else [EvMadtParse c])
           ++ (if ioapic then [] else [EvIoapicInit c])
           ++ [EvLapicInit c]
           ++ (if spectre then [EvSpectreMitigate c] else []))).
Proof.
  intros Hroom Hsse. cbv zeta.
  pose proof (__TEST_IOAPIC_lor_ACPI f) as Hindep.
  destruct (decide (length h < r)%nat) as [Hr|Hr] eqn:Hdec; [|contradiction].
  destruct (__TEST f INIT_FLAG_ACPI) eqn:Hacpi;
    destruct (__TEST f INIT_FLAG_IOAPIC) eqn:Hio;
    destruct spectre.
  all: symmetry; cbv beta delta [processor_init]; smp_head.
  all: cbn [app]; rewrite <- ?app_assoc; reflexivity.
Qed.

Section OrchestratorFacts.

Variable MADT_LAPIC_BASE : Z.
Variable try_spectre_mitigate : bool.

#[local] Abbreviation statement :=
  (statement MADT_LAPIC_BASE try_spectre_mitigate).
#[local] Abbreviation statements :=
  (statements MADT_LAPIC_BASE try_spectre_mitigate).
#[local] Abbreviation processor_init :=
  (processor_init MADT_LAPIC_BASE try_spectre_mitigate).
#[local] Abbreviation step := (step MADT_LAPIC_BASE try_spectre_mitigate).
#[local] Abbreviation run := (run MADT_LAPIC_BASE try_spectre_mitigate).

Lemma run_cons c schedule w : run (c :: schedule) w = run schedule (step c w).
Proof. reflexivity. Qed.

Lemma run_app s1 s2 w : run (s1 ++ s2) w = run s2 (run s1 w).
Proof. unfold run. apply foldl_app. Qed.

Lemma cores_store p d w : cores (store p d w) = cores w.
Proof. now destruct p. Qed.

Lemma init_flags_store p d w : init_flags (store p d w) = init_flags w.
Proof. now destruct p. Qed.

Lemma trace_store p d w : trace (store p d w) = trace w.
Proof. now destruct p. Qed.

Lemma madt_parses_snoc tr e :
  length (List.filter is_madt_parse (tr ++ [e]))
  = (length (List.filter is_madt_parse tr)
     + if is_madt_parse e then 1 else 0)%nat.
Proof.
  rewrite List.filter_app, length_app. cbn.
  now destruct (is_madt_parse e).
Qed.

Lemma ioapic_inits_snoc tr e :
  length (List.filter is_ioapic_init (tr ++ [e]))
  = (length (List.filter is_ioapic_init tr)
     + if is_ioapic_init e then 1 else 0)%nat.
Proof.
  rewrite List.filter_app, length_app. cbn.
  now destruct (is_ioapic_init e).
Qed.

(** The statements between a passed flag test and the end of the call
    it guards. *)
Definition in_discovery (l : label) : bool :=
  match l with
  | L_acpi_flag | L_acpi_parse | L_ioapic_flag | L_ioapic_init => true
  | _ => false
  end.

(** Discovery is behind us: both flags are set and no core is between a
    flag test and the guarded call. *)
Definition discovered (w : world) : Prop :=
  __TEST (init_flags w) INIT_FLAG_ACPI = true /\
  __TEST (init_flags w) INIT_FLAG_IOAPIC = true /\
  Forall (fun k => in_discovery (at_pc k) = false) (cores w).

Lemma cores_update p f w : cores (update p f w) = cores w.
Proof. unfold update. destruct (deref p w); [apply cores_store|reflexivity]. Qed.

Lemma init_flags_update p f w : init_flags (update p f w) = init_flags w.
Proof.
  unfold update. destruct (deref p w); [apply init_flags_store|reflexivity].
Qed.

Lemma trace_update p f w : trace (update p f w) = trace w.
Proof. unfold update. destruct (deref p w); [apply trace_store|reflexivity]. Qed.

Ltac smp_simpl :=
  cbn [fst snd cores init_flags trace heap set_cores set_heap set_init_flags
       set_reg_tmp set_acpi_lapic_base emit at_pc goto];
  rewrite ?cores_store, ?init_flags_store, ?trace_store,
          ?cores_update, ?init_flags_update, ?trace_update;
  cbn [fst snd cores init_flags trace heap set_cores set_heap set_init_flags
       set_reg_tmp set_acpi_lapic_base emit at_pc goto].

(** No statement touches the list of cores: a core changes only its own
    entry, through [step]. *)
Lemma statement_cores c k w : cores (statement c k w).2 = cores w.
Proof.
  unfold Smp.statement, dynalloc, init_tss.
  destruct (at_pc k);
    repeat first
      [ case_decide
      | match goal with
        | |- context [match ?x with _ => _ end] => destruct x
        end ];
    smp_simpl; reflexivity.
Qed.

(** Once discovery is behind us no statement runs it again. *)
Lemma statement_discovered c k w :
  __TEST (init_flags w) INIT_FLAG_ACPI = true ->
  __TEST (init_flags w) INIT_FLAG_IOAPIC = true ->
  in_discovery (at_pc k) = false ->
  in_discovery (at_pc (statement c k w).1) = false /\
  init_flags (statement c k w).2 = init_flags w /\
  length (List.filter is_madt_parse (trace (statement c k w).2))
    = length (List.filter is_madt_parse (trace w)) /\
  length (List.filter is_ioapic_init (trace (statement c k w).2))
    = length (List.filter is_ioapic_init (trace w)).
Proof.
  intros Ha Hi Hout. unfold Smp.statement, dynalloc, init_tss.
  destruct (at_pc k) eqn:Hpc; try discriminate Hout;
    rewrite ?Ha, ?Hi; cbn [negb];
    repeat first
      [ case_decide
      | match goal with
        | |- context [match ?x with _ => _ end] => destruct x
        end ];
    smp_simpl;
    rewrite ?madt_parses_snoc, ?ioapic_inits_snoc; cbn;
    rewrite ?Hpc, ?Nat.add_0_r; repeat split; reflexivity.
Qed.

Lemma step_discovered c w :
  discovered w ->
  discovered (step c w) /\
  madt_parses (step c w) = madt_parses w /\
  ioapic_inits (step c w) = ioapic_inits w.
Proof.
  intros (Ha & Hi & Hf). unfold Smp.step.
  destruct (cores w !! c) as [k|] eqn:Hk; [|repeat split; assumption].
  pose proof (Forall_lookup_1 _ _ _ _ Hf Hk) as Hout. cbn beta in Hout.
  pose proof (statement_cores c k w) as Hcs.
  destruct (statement_discovered c k w Ha Hi Hout) as (Hl & Hfl & Hm & Hio).
  destruct (statement c k w) as [k' w'].
  cbn [fst snd] in *.
  unfold discovered, madt_parses, ioapic_inits. smp_simpl.
  rewrite Hcs, Hfl, Hm, Hio. repeat split; try assumption.
  apply Forall_insert; [exact Hf | exact Hl].
Qed.

Lemma run_discovered schedule w :
  discovered w ->
  discovered (run schedule w) /\
  madt_parses (run schedule w) = madt_parses w /\
  ioapic_inits (run schedule w) = ioapic_inits w.
Proof.
  revert w. induction schedule as [|c schedule IH]; intros w Hd.
  - split; [exact Hd|split; reflexivity].
  - rewrite run_cons.
    destruct (step_discovered c w Hd) as (Hd' & Hm & Hio).
    destruct (IH (step c w) Hd') as (Hd'' & Hm' & Hio').
    split; [exact Hd''|split; congruence].
Qed.

(** *** A core running alone *)

Lemma deref_set_cores p cs w : deref p (set_cores cs w) = deref p w.
Proof. now destruct p. Qed.

Lemma store_set_cores p d cs w :
  store p d (set_cores cs w) = set_cores cs (store p d w).
Proof. now destruct p. Qed.

Lemma update_set_cores p f cs w :
  update p f (set_cores cs w) = set_cores cs (update p f w).
Proof.
  unfold update. rewrite deref_set_cores.
  destruct (deref p w); [apply store_set_cores|reflexivity].
Qed.

(** A statement neither reads nor writes the list of cores. *)
Lemma statement_set_cores c k cs w :
  statement c k (set_cores cs w)
  = ((statement c k w).1, set_cores cs (statement c k w).2).
Proof.
  unfold Smp.statement, dynalloc, init_tss.
  destruct (at_pc k);
    cbn [heap heap_room init_flags shared_reg_tmp acpi_lapic_base set_cores];
    rewrite ?deref_set_cores, ?store_set_cores, ?update_set_cores;
    repeat first
      [ case_decide
      | match goal with
        | |- context [match ?x with _ => _ end] => destruct x
        end ];
    rewrite ?store_set_cores; reflexivity.
Qed.

Lemma statements_set_cores n c k cs w :
  statements n c k (set_cores cs w)
  = ((statements n c k w).1, set_cores cs (statements n c k w).2).
Proof.
  revert k w. induction n as [|n IH]; intros k w; [reflexivity|].
  cbn [Smp.statements]. rewrite statement_set_cores.
  destruct (statement c k w) as [k1 w1]. cbn [fst snd]. apply IH.
Qed.

Lemma statements_cores n c k w : cores (statements n c k w).2 = cores w.
Proof.
  revert k w. induction n as [|n IH]; intros k w; [reflexivity|].
  cbn [Smp.statements]. pose proof (statement_cores c k w) as Hc.
  destruct (statement c k w) as [k1 w1]. cbn [fst snd] in Hc.
  now rewrite IH.
Qed.

Lemma set_cores_idem cs cs' w : set_cores cs (set_cores cs' w) = set_cores cs w.
Proof. reflexivity. Qed.

(** [n] steps of core [c] with no other core in between are [n] of its
    statements, written back to its entry in the list of cores. *)
Lemma run_statements n c k w :
  cores w !! c = Some k ->
  run (replicate n c) w
  = set_cores (<[c := (statements n c k w).1]> (cores w))
      (statements n c k w).2.
Proof.
  revert k w. induction n as [|n IH]; intros k w Hk.
  - cbn. rewrite list_insert_id by exact Hk. now destruct w.
  - cbn [replicate]. rewrite run_cons. unfold Smp.step. rewrite Hk.
    cbn [Smp.statements].
    pose proof (statement_cores c k w) as Hc.
    destruct (statement c k w) as [k1 w1]. cbn [fst snd] in Hc.
    assert (Hlt : (c < length (cores w1))%nat)
      by (rewrite Hc; eapply lookup_lt_Some, Hk).
    rewrite (IH k1) by (now apply list_lookup_insert_eq).
    rewrite statements_set_cores. cbn [fst snd cores set_cores].
    rewrite list_insert_insert_eq, set_cores_idem. now rewrite Hc.
Qed.

(** Running [processor_init] alone on core [c], statement by statement,
    does to the world what [processor_init] says. *)
Lemma run_alone_processor_init c k w :
  cores w !! c = Some k ->
  at_pc k = L_dynalloc ->
  run (alone c) w
  = set_cores (<[c := (processor_init c k w).1]> (cores w))
      (processor_init c k w).2.
Proof.
  intros Hk Hpc. unfold alone.
  rewrite (run_statements 25 c k w Hk).
  now rewrite statements_processor_init.
Qed.

(** *** The first core, running alone *)

(** Up to the feature test: the descriptor is allocated, zeroed and
    published in GS. *)
Lemma first_core_prologue cpu gs edx cr0 cr4 io others r :
  run (replicate 4 0%nat)
    (boot (Core L_dynalloc cpu gs edx cr0 cr4 io :: others) (S r))
  = World (Core L_sse_test (Some 0%nat) (Some 0%nat) edx cr0 cr4 io :: others)
      [Some zeroed] (S r) 0 0 0 [].
Proof. reflexivity. Qed.

Lemma first_core_sse_test p gs edx cr0 cr4 io others h r f t b tr :
  is_sse_supported edx = true ->
  step 0 (World (Core L_sse_test p gs edx cr0 cr4 io :: others) h r f t b tr)
  = World (Core L_cr0_read p gs edx cr0 cr4 io :: others) h r f t b tr.
Proof. intros Hsse. unfold step. cbn. now rewrite Hsse. Qed.

(** The first core to call [processor_init], with the SSE bits present
    and room for its descriptor, run to its return with no other core
    moving: it has discovered the platform, once, and left both flags
    set. *)
Lemma first_core_alone k0 others room :
  at_pc k0 = L_dynalloc ->
  is_sse_supported (cpuid_edx k0) = true ->
  (0 < room)%nat ->
  let w := run (alone 0) (boot (k0 :: others) room) in
  tail (cores w) = others /\
  (at_pc <$> head (cores w)) = Some L_done /\
  (intr_on <$> head (cores w)) = Some true /\
  heap w = [Some {| lock := false; lapic_base := MADT_LAPIC_BASE; tss := true |}] /\
  init_flags w = Z.lor INIT_FLAG_ACPI INIT_FLAG_IOAPIC /\
  madt_parses w = 1%nat /\
  ioapic_inits w = 1%nat.
Proof.
  destruct k0 as [pc cpu gs edx cr0 cr4 io]. cbn [at_pc cpuid_edx].
  intros -> Hsse Hroom.
  destruct room as [|r]; [lia|].
  unfold alone.
  change (replicate 25 0%nat)
    with (replicate 4 0%nat ++ 0%nat :: replicate 20 0%nat).
  rewrite run_app, first_core_prologue, run_cons.
  rewrite first_core_sse_test by exact Hsse.
  apply first_core_epilogue.
Qed.

Lemma first_core_discovered k0 others room :
  at_pc k0 = L_dynalloc ->
  Forall (fun k => at_pc k = L_dynalloc) others ->
  is_sse_supported (cpuid_edx k0) = true ->
  (0 < room)%nat ->
  discovered (run (alone 0) (boot (k0 :: others) room)).
Proof.
  intros Hk0 Hothers Hsse Hroom.
  destruct (first_core_alone k0 others room Hk0 Hsse Hroom)
    as (Htl & Hhd & _ & _ & Hflags & _).
  unfold discovered. rewrite Hflags. split; [reflexivity|split; [reflexivity|]].
  destruct (cores (run (alone 0) (boot (k0 :: others) room)))
    as [|k' rest]; [discriminate Hhd|].
  cbn in Htl, Hhd. subst rest. injection Hhd as Hpc.
  constructor.
  - now rewrite Hpc.
  - eapply Forall_impl; [exact Hothers|].
    intros k Hk. cbn beta in Hk. now rewrite Hk.
Qed.

(** The SSE block of [processor_init] run by one core with no other
    core moving is [FeatureEnabler.enable_sse]: eight statements that
    leave its result in CR0, CR4 and [reg_tmp], or, without the
    feature bits, two statements that end in [panic]. *)
Lemma sse_block_alone p gs edx c0 c4 io others h r f t b tr :
  let w := World (Core L_sse_test p gs edx c0 c4 io :: others) h r f t b tr in
  match enable_sse edx (Ctrl c0 c4 t) with
  | Ok c' =>
      run (replicate 8 0%nat) w
      = World (Core L_lock p gs edx (cr0 c') (cr4 c') io :: others)
          h r f (reg_tmp c') b tr
  | Halted _ =>
      run (replicate 2 0%nat) w
      = World (Core L_halted p gs edx c0 c4 io :: others)
          h r f t b (tr ++ [EvPanic 0])
  end.
Proof.
  cbv zeta. unfold enable_sse.
  destruct (is_sse_supported edx) eqn:Hsse.
  - change (replicate 8 0%nat) with (0%nat :: replicate 7 0%nat).
    rewrite run_cons, first_core_sse_test by exact Hsse. reflexivity.
  - change (replicate 2 0%nat) with [0%nat; 0%nat].
    rewrite run_cons.
    assert (Hstep :
      step 0 (World (Core L_sse_test p gs edx c0 c4 io :: others) h r f t b tr)
      = World (Core L_panic p gs edx c0 c4 io :: others) h r f t b tr)
      by (unfold Smp.step; cbn; now rewrite Hsse).
    rewrite Hstep. reflexivity.
Qed.

(** C1, as the code has it.  Let the first core to call
    [processor_init] run it to its return before any other core enters
    (the bootstrap processor, with the SSE bits present and room for its
    descriptor).  Then, however many other cores there are and in
    whatever order their statements are interleaved afterwards, the
    MADT has been parsed exactly once and the I/O APIC initialised
    exactly once. *)
Theorem discovery_once_after_first_core (k0 : core) (others : list core)
    (room : nat) (schedule : list nat) :
  at_pc k0 = L_dynalloc ->
  Forall (fun k => at_pc k = L_dynalloc) others ->
  is_sse_supported (cpuid_edx k0) = true ->
  (0 < room)%nat ->
  let w := run schedule (run (alone 0) (boot (k0 :: others) room)) in
  madt_parses w = 1%nat /\ ioapic_inits w = 1%nat.
Proof.
  intros Hk0 Hothers Hsse Hroom. cbv zeta.
  pose proof (first_core_discovered k0 others room Hk0 Hothers Hsse Hroom)
    as Hd.
  destruct (first_core_alone k0 others room Hk0 Hsse Hroom)
    as (_ & _ & _ & _ & _ & Hm & Hio).
  destruct (run_discovered schedule _ Hd) as (_ & Hm' & Hio').
  split; congruence.
Qed.

(** *** One core from entry to return, no other core moving *)

(** X12.  The two ways [processor_init] does not return.  A core that
    runs it with no room left for its descriptor, or without the SSE and
    SSE2 bits, ends halted after one [panic] (or failed assertion) and
    nothing else: no other call is made, CR0 and CR4 are as they were,
    interrupts are not enabled, the flags and the recorded controller
    base are untouched.  Without the feature bits the descriptor has been
    allocated and zeroed by then, and it stays. *)
Theorem processor_init_alone_halts (c : nat) (k : core) (w : world) :
  cores w !! c = Some k ->
  at_pc k = L_dynalloc ->
  (heap_room w <= length (heap w))%nat \/
    is_sse_supported (cpuid_edx k) = false ->
  let w' := run (alone c) w in
  (exists k', cores w' = <[c := k']> (cores w) /\
              at_pc k' = L_halted /\
              core_cr0 k' = core_cr0 k /\ core_cr4 k' = core_cr4 k /\
              intr_on k' = intr_on k) /\
  trace w' = trace w ++ [EvPanic c] /\
  init_flags w' = init_flags w /\
  acpi_lapic_base w' = acpi_lapic_base w /\
  heap w' = if decide (length (heap w) < heap_room w)%nat
            then heap w ++ [Some zeroed] else heap w.
Proof.
  intros Hk Hpc Hwhy. cbv zeta.
  rewrite (run_alone_processor_init c k w Hk Hpc).
  destruct k as [pc p gs edx c0 c4 io], w as [cs h r f t b tr].
  cbn [heap heap_room cpuid_edx cores core_cr0 core_cr4 intr_on trace
       init_flags acpi_lapic_base] in *.
  destruct (decide (length h < r)%nat) as [Hroom|Hroom].
  - destruct Hwhy as [Hfull|Hsse]; [lia|].
    rewrite (processor_init_no_sse _ _ _ _ _ _ _ _ _ _ _ _ _ _ _ _ _ Hroom Hsse).
    split; [eexists; repeat split|repeat split].
  - rewrite (processor_init_no_room _ _ _ _ _ _ _ _ _ _ _ _ _ _ _ _ _ Hroom).
    split; [eexists; repeat split|repeat split].
Qed.

(** X13.  What a core and its descriptor look like when
    [processor_init] returns.  With room for the descriptor and the SSE
    and SSE2 bits present, the core ends with interrupts enabled, with
    [cur_cpu] and the GS base on the descriptor just allocated, with CR0.EM
    cleared and CR0.MP set and CR4.OSFXSR and CR4.OSXMMEXCPT set; the
    descriptor is new (the last of the heap), unlocked, has its
    task-state segment, and carries the controller base the ACPI code
    has on record at that moment; both [init_flags] bits are set; no
    other core has been touched. *)
Theorem processor_init_alone_returns (c : nat) (k : core) (w : world) :
  cores w !! c = Some k ->
  at_pc k = L_dynalloc ->
  (length (heap w) < heap_room w)%nat ->
  is_sse_supported (cpuid_edx k) = true ->
  let w' := run (alone c) w in
  let a := length (heap w) in
  cores w' =
    <[c := {| at_pc := L_done; cur_cpu := Some a; gs_base := Some a;
              cpuid_edx := cpuid_edx k;
              core_cr0 := Z.lor (Z.land (core_cr0 k) (not64 (__BIT 2))) (__BIT 1);
              core_cr4 := Z.lor (core_cr4 k) (Z.shiftl 3 9);
              intr_on := true |}]> (cores w) /\
  heap w' =
    heap w ++ [Some {| lock := false; lapic_base := acpi_lapic_base w';
                       tss := true |}] /\
  init_flags w' = Z.lor (Z.lor (init_flags w) INIT_FLAG_ACPI) INIT_FLAG_IOAPIC /\
  __TEST (init_flags w') INIT_FLAG_ACPI = true /\
  __TEST (init_flags w') INIT_FLAG_IOAPIC = true.
Proof.
  intros Hk Hpc Hroom Hsse. cbv zeta.
  rewrite (run_alone_processor_init c k w Hk Hpc).
  destruct k as [pc p gs edx c0 c4 io], w as [cs h r f t b tr].
  cbn [heap heap_room cpuid_edx cores core_cr0 core_cr4] in *.
  rewrite (processor_init_returns _ _ _ _ _ _ _ _ _ _ _ _ _ _ _ _ _ Hroom Hsse).
  cbv zeta.
  cbn [fst snd set_cores cores heap init_flags acpi_lapic_base].
  rewrite (init_flags_after f).
  split; [reflexivity|]. split; [reflexivity|]. split; [reflexivity|].
  split.
  - apply __TEST_lor, __TEST_lor_ACPI.
  - apply __TEST_lor_IOAPIC.
Qed.

(** X14.  What [processor_init] asks of the rest of the kernel, and in
    which order, when it returns: the task-state segment is loaded; the
    MADT is parsed if and only if [INIT_FLAG_ACPI] was clear at entry;
    the I/O APIC is initialised if and only if [INIT_FLAG_IOAPIC] was
    clear at entry; the local APIC is initialised; the Spectre hook is
    called if one is linked in.  The controller base on record changes
    only with the MADT parse.  So a core that enters with both flags set
    discovers nothing and copies what an earlier core found. *)
Theorem processor_init_alone_calls (c : nat) (k : core) (w : world) :
  cores w !! c = Some k ->
  at_pc k = L_dynalloc ->
  (length (heap w) < heap_room w)%nat ->
  is_sse_supported (cpuid_edx k) = true ->
  let w' := run (alone c) w in
  let acpi := __TEST (init_flags w) INIT_FLAG_ACPI in
  let ioapic := __TEST (init_flags w) INIT_FLAG_IOAPIC in
  trace w' =
    trace w ++ [EvTssLoad c]
            ++ (if acpi then [] else [EvMadtParse c])
            ++ (if ioapic then [] else [EvIoapicInit c])
            ++ [EvLapicInit c]
            ++ (if try_spectre_mitigate then [EvSpectreMitigate c] else []) /\
  acpi_lapic_base w' = (if acpi then acpi_lapic_base w else MADT_LAPIC_BASE).
Proof.
  intros Hk Hpc Hroom Hsse. cbv zeta.
  rewrite (run_alone_processor_init c k w Hk Hpc).
  destruct k as [pc p gs edx c0 c4 io], w as [cs h r f t b tr].
  cbn [heap heap_room cpuid_edx cores init_flags trace acpi_lapic_base] in *.
  rewrite (processor_init_returns _ _ _ _ _ _ _ _ _ _ _ _ _ _ _ _ _ Hroom Hsse).
  split; reflexivity.
Qed.

End OrchestratorFacts.

#[local] Instance label_eq_dec : EqDecision label.
Proof. solve_decision. Defined.

(** *** All interleavings

    What a core holds: nothing before [dynalloc] has returned, then
    whatever [cur_cpu] points at. *)
Definition owns (k : core) : option nat :=
  match at_pc k with
  | L_dynalloc => None
  | _ => cur_cpu k
  end.

(** The lock and the task-state segment of a core's descriptor, by the
    statement the core is at; [None] where the descriptor is not yet
    initialised or no longer matters. *)
Definition expected (l : label) : option (bool * bool) :=
  match l with
  | L_dynalloc | L_assert | L_memset | L_halted => None
  | L_write_gs | L_sse_test | L_cr0_read | L_cr0_clear | L_cr0_set
  | L_cr0_write | L_cr4_read | L_cr4_set | L_cr4_write | L_panic | L_lock =>
      Some (false, false)
  | L_init_tss => Some (true, false)
  | L_acpi_test | L_acpi_flag | L_acpi_parse | L_ioapic_test | L_ioapic_flag
  | L_ioapic_init | L_lapic_base | L_unlock => Some (true, true)
  | L_lapic_init | L_spectre | L_sti | L_done => Some (false, true)
  end.

Definition cell_ok (l : label) (x : option (option cpu_info)) : Prop :=
  match expected l with
  | None => is_Some x
  | Some (lk, ts) => exists d, x = Some (Some d) /\ lock d = lk /\ tss d = ts
  end.

(** The statements that use [cur_cpu]. *)
Definition needs_cpu (l : label) : bool :=
  match l with
  | L_dynalloc | L_assert | L_halted => false
  | _ => true
  end.

Definition core_ok (k : core) : Prop :=
  (needs_cpu (at_pc k) = true -> is_Some (cur_cpu k)) /\
  (at_pc k = L_done -> intr_on k = true).

Definition private (w : world) : Prop :=
  (forall c k, cores w !! c = Some k -> core_ok k) /\
  (forall c k a, cores w !! c = Some k -> owns k = Some a ->
                 cell_ok (at_pc k) (heap w !! a)) /\
  (forall c c' k k' a,
     cores w !! c = Some k -> cores w !! c' = Some k' ->
     owns k = Some a -> owns k' = Some a -> c = c').

Lemma cell_ok_is_Some l x : cell_ok l x -> is_Some x.
Proof.
  unfold cell_ok. destruct (expected l) as [[lk ts]|]; [|trivial].
  intros (d & -> & _). eauto.
Qed.

(** How many statements a core still has to execute, at most. *)
Definition remaining (l : label) : nat :=
  match l with
  | L_dynalloc => 25 | L_assert => 24 | L_memset => 23 | L_write_gs => 22
  | L_sse_test => 21 | L_cr0_read => 20 | L_cr0_clear => 19 | L_cr0_set => 18
  | L_cr0_write => 17 | L_cr4_read => 16 | L_cr4_set => 15 | L_cr4_write => 14
  | L_panic => 1 | L_lock => 13 | L_init_tss => 12 | L_acpi_test => 11
  | L_acpi_flag => 10 | L_acpi_parse => 9 | L_ioapic_test => 8
  | L_ioapic_flag => 7 | L_ioapic_init => 6 | L_lapic_base => 5
  | L_unlock => 4 | L_lapic_init => 3 | L_spectre => 2 | L_sti => 1
  | L_done => 0 | L_halted => 0
  end%nat.

Section Interleavings.

(** The platform, as in [Orchestrator]. *)
Variable base : Z.
Variable spectre : bool.

Lemma statement_owned c pc gs edx c0 c4 io a w :
  pc <> L_dynalloc ->
  cell_ok pc (heap w !! a) ->
  (pc = L_done -> io = true) ->
  exists pc' gs' c0' c4' io' w1,
    statement base spectre c (Core pc (Some a) gs edx c0 c4 io) w
      = (Core pc' (Some a) gs' edx c0' c4' io', w1) /\
    pc' <> L_dynalloc /\
    cell_ok pc' (heap w1 !! a) /\
    (forall a', a' <> a -> heap w1 !! a' = heap w !! a') /\
    (pc' = L_done -> io' = true) /\
    (remaining pc' <= remaining pc - 1)%nat.
Proof.
  intros Hpc Hcell Hio.
  assert (Hlt : (a < length (heap w))%nat)
    by (apply lookup_lt_is_Some, (cell_ok_is_Some pc), Hcell).
  unfold cell_ok in Hcell.
  destruct pc; try congruence; cbn [expected] in Hcell;
    try destruct Hcell as (d & Hd & Hl & Ht);
    unfold statement, init_tss, update, deref, store;
    cbn [at_pc cur_cpu cpuid_edx]; rewrite ?Hd; cbn [mjoin option_join]; rewrite ?Hl.
  all: repeat match goal with
         | |- context [if ?b then _ else _] => destruct b
         end.
  all: do 6 eexists; (split; [reflexivity|]).
  all: (split; [discriminate|]).
  all: cbn [heap set_heap emit set_reg_tmp set_init_flags set_acpi_lapic_base].
  all: rewrite ?Hd; cbn [mjoin option_join heap set_heap].
  all: rewrite ?list_lookup_insert_eq by exact Hlt.
  all: unfold cell_ok; cbn [expected remaining].
  all: split;
    [first [ exact Hcell | eauto 6
           | eexists; split; [reflexivity|]; cbn [lock tss set_lock set_tss set_lapic_base]; eauto ]|].
  all: split;
    [intros a' Ha'; rewrite ?list_lookup_insert_ne by congruence; reflexivity|].
  all: split; [first [discriminate | intros _; reflexivity | exact Hio]|].
  all: lia.
Qed.

Lemma statement_dynalloc c k w :
  at_pc k = L_dynalloc ->
  exists k1 w1,
    statement base spectre c k w = (k1, w1) /\
    at_pc k1 = L_assert /\
    ((cur_cpu k1 = Some (length (heap w)) /\ heap w1 = heap w ++ [None]) \/
     (cur_cpu k1 = None /\ heap w1 = heap w)).
Proof.
  intros Hpc. unfold statement, dynalloc. rewrite Hpc.
  case_decide; do 2 eexists; (split; [reflexivity|]);
    (split; [reflexivity|]); [left|right]; split; reflexivity.
Qed.

Lemma statement_unowned c k w :
  at_pc k <> L_dynalloc ->
  cur_cpu k = None ->
  needs_cpu (at_pc k) = false ->
  exists k1 w1,
    statement base spectre c k w = (k1, w1) /\
    at_pc k1 = L_halted /\ cur_cpu k1 = None /\ heap w1 = heap w.
Proof.
  intros Hpc Hcpu Hneed. unfold statement.
  destruct (at_pc k) eqn:Hat; try discriminate Hneed; try congruence;
    rewrite ?Hcpu; do 2 eexists; (split; [reflexivity|]); cbn [at_pc goto cur_cpu heap emit];
    repeat split; assumption.
Qed.

Lemma owns_past_dynalloc k : at_pc k <> L_dynalloc -> owns k = cur_cpu k.
Proof. unfold owns. destruct (at_pc k); congruence. Qed.

Lemma owns_Some k a : owns k = Some a -> at_pc k <> L_dynalloc /\ cur_cpu k = Some a.
Proof. unfold owns. destruct (at_pc k); intros H; split; congruence. Qed.

(** Core [c0] moves to [k1] and the heap to that of [w1]: the
    descriptors of the other cores are as they were, and what [c0] now
    owns is in order and owned by nobody else. *)
Lemma private_step w c0 k0 k1 w1 :
  private w ->
  cores w !! c0 = Some k0 ->
  core_ok k1 ->
  (forall c k a, c <> c0 -> cores w !! c = Some k -> owns k = Some a ->
                 heap w1 !! a = heap w !! a) ->
  (forall a, owns k1 = Some a ->
             cell_ok (at_pc k1) (heap w1 !! a) /\
             forall c k, c <> c0 -> cores w !! c = Some k -> owns k <> Some a) ->
  private (set_cores (<[c0 := k1]> (cores w)) w1).
Proof.
  intros (Hcore & Hcell & Hone) Hk0 Hk1 Hframe Hown.
  assert (Hlt : (c0 < length (cores w))%nat) by (eapply lookup_lt_Some, Hk0).
  unfold private. cbn [cores heap set_cores].
  split; [|split].
  - intros c k Hk. destruct (decide (c = c0)) as [->|Hne].
    + rewrite list_lookup_insert_eq in Hk by exact Hlt. now injection Hk as <-.
    + rewrite list_lookup_insert_ne in Hk by congruence. eapply Hcore, Hk.
  - intros c k a Hk Ha. destruct (decide (c = c0)) as [->|Hne].
    + rewrite list_lookup_insert_eq in Hk by exact Hlt. injection Hk as <-.
      apply Hown, Ha.
    + rewrite list_lookup_insert_ne in Hk by congruence.
      rewrite (Hframe c k a Hne Hk Ha). eapply Hcell; eassumption.
  - intros c c' k k' a Hk Hk' Ha Ha'.
    destruct (decide (c = c0)) as [->|Hne], (decide (c' = c0)) as [->|Hne'];
      [reflexivity| | |].
    + rewrite list_lookup_insert_eq in Hk by exact Hlt. injection Hk as <-.
      rewrite list_lookup_insert_ne in Hk' by congruence.
      destruct (Hown a Ha) as [_ Hnone]. now destruct (Hnone c' k' Hne' Hk').
    + rewrite list_lookup_insert_eq in Hk' by exact Hlt. injection Hk' as <-.
      rewrite list_lookup_insert_ne in Hk by congruence.
      destruct (Hown a Ha') as [_ Hnone]. now destruct (Hnone c k Hne Hk).
    + rewrite list_lookup_insert_ne in Hk, Hk' by congruence.
      eapply Hone; eassumption.
Qed.

(** The statements a core has left, by its place in the list of cores. *)
Definition left_to_do (c : nat) (w : world) : nat :=
  match cores w !! c with
  | Some k => remaining (at_pc k)
  | None => 0
  end.

Lemma step_private c0 w :
  private w ->
  private (step base spectre c0 w) /\
  (left_to_do c0 (step base spectre c0 w) <= left_to_do c0 w - 1)%nat.
Proof.
  intros Hp. unfold step, left_to_do.
  destruct (cores w !! c0) as [k0|] eqn:Hk0; [|rewrite Hk0; auto].
  assert (Hlt : (c0 < length (cores w))%nat) by (eapply lookup_lt_Some, Hk0).
  pose proof Hp as (Hcore & Hcell & Hone).
  pose proof (statement_cores base spectre c0 k0 w) as Hcs.
  destruct (decide (at_pc k0 = L_dynalloc)) as [Hpc|Hpc].
  - destruct (statement_dynalloc c0 k0 w Hpc) as (k1 & w1 & Heq & Hpc1 & Hheap).
    rewrite Heq in *. cbn [fst snd] in Hcs. rewrite Hcs. cbn [cores set_cores].
    rewrite list_lookup_insert_eq by exact Hlt.
    split; [|rewrite Hpc, Hpc1; cbn; lia].
    apply (private_step w c0 k0 k1 w1 Hp Hk0).
    + split; rewrite Hpc1; [discriminate|discriminate].
    + intros c k a Hne Hk Ha.
      destruct Hheap as [[_ ->]|[_ ->]]; [|reflexivity].
      apply lookup_app_l, lookup_lt_is_Some.
      eapply cell_ok_is_Some, Hcell; eassumption.
    + intros a Ha. apply owns_Some in Ha as [_ Ha].
      destruct Hheap as [[Hcpu ->]|[Hcpu _]]; [|congruence].
      rewrite Hcpu in Ha. injection Ha as <-.
      split.
      * unfold cell_ok. rewrite Hpc1. cbn [expected].
        rewrite list_lookup_middle by reflexivity. eauto.
      * intros c k Hne Hk Hown.
        pose proof (cell_ok_is_Some _ _ (Hcell c k _ Hk Hown)) as Hsome.
        apply lookup_lt_is_Some in Hsome. lia.
  - destruct k0 as [pc [a|] gs edx r0 r4 io]; cbn [at_pc] in Hpc.
    + assert (Hown0 : owns (Core pc (Some a) gs edx r0 r4 io) = Some a)
        by (now rewrite owns_past_dynalloc).
      destruct (statement_owned c0 pc gs edx r0 r4 io a w Hpc
                  (Hcell _ _ _ Hk0 Hown0) (proj2 (Hcore _ _ Hk0)))
        as (pc' & gs' & r0' & r4' & io' & w1 & Heq & Hpc' & Hcell' & Hframe
            & Hio' & Hless).
      rewrite Heq in *. cbn [fst snd] in Hcs. rewrite Hcs. cbn [cores set_cores].
      rewrite list_lookup_insert_eq by exact Hlt.
      split; [|exact Hless].
      apply (private_step w c0 _ _ w1 Hp Hk0).
      * split; cbn [at_pc cur_cpu intr_on]; [eauto|exact Hio'].
      * intros c k a' Hne Hk Ha'. apply Hframe. intros ->.
        apply Hne. eapply Hone; eassumption.
      * intros a' Ha'. rewrite owns_past_dynalloc in Ha' by exact Hpc'.
        injection Ha' as <-. split; [exact Hcell'|].
        intros c k Hne Hk Hown. apply Hne. eapply Hone; eassumption.
    + assert (Hneed : needs_cpu pc = false).
      { destruct (needs_cpu pc) eqn:Hn; [|reflexivity].
        destruct (proj1 (Hcore _ _ Hk0) Hn) as [x Hx]. discriminate Hx. }
      destruct (statement_unowned c0 (Core pc None gs edx r0 r4 io) w Hpc
                  eq_refl Hneed) as (k1 & w1 & Heq & Hpc1 & Hcpu1 & Hheap).
      rewrite Heq in *. cbn [fst snd] in Hcs. rewrite Hcs. cbn [cores set_cores].
      rewrite list_lookup_insert_eq by exact Hlt.
      split.
      * apply (private_step w c0 _ _ w1 Hp Hk0).
        -- split; rewrite Hpc1; discriminate.
        -- intros c k a' _ _ _. now rewrite Hheap.
        -- intros a' Ha'. apply owns_Some in Ha' as [_ Ha']. congruence.
      * rewrite Hpc1. cbn [at_pc remaining].
        destruct pc; try discriminate Hneed; try congruence; cbn; lia.
Qed.

Lemma step_other c0 c w :
  c <> c0 -> cores (step base spectre c0 w) !! c = cores w !! c.
Proof.
  intros Hne. unfold step.
  destruct (cores w !! c0) as [k0|]; [|reflexivity].
  pose proof (statement_cores base spectre c0 k0 w) as Hcs.
  destruct (statement base spectre c0 k0 w) as [k1 w1].
  cbn [fst snd] in Hcs. cbn [cores set_cores]. rewrite Hcs.
  apply list_lookup_insert_ne. congruence.
Qed.

Lemma entering_private w :
  Forall (fun k => at_pc k = L_dynalloc) (cores w) -> private w.
Proof.
  intros Hall.
  assert (Hpc : forall c k, cores w !! c = Some k -> at_pc k = L_dynalloc)
    by (intros c k Hk; apply (Forall_lookup_1 _ _ _ _ Hall Hk)).
  split; [|split].
  - intros c k Hk. split; rewrite (Hpc c k Hk); discriminate.
  - intros c k a Hk Ha. apply owns_Some in Ha as [Hno _].
    now destruct (Hno (Hpc c k Hk)).
  - intros c c' k k' a Hk _ Ha _. apply owns_Some in Ha as [Hno _].
    now destruct (Hno (Hpc c k Hk)).
Qed.

Lemma run_private schedule w :
  private w -> private (run base spectre schedule w).
Proof.
  revert w. induction schedule as [|c0 schedule IH]; intros w Hp; [exact Hp|].
  cbn [run foldl]. apply IH, step_private, Hp.
Qed.

Lemma run_left_to_do schedule w c :
  private w ->
  (left_to_do c (run base spectre schedule w)
   <= left_to_do c w - count_occ Nat.eq_dec schedule c)%nat.
Proof.
  revert w. induction schedule as [|c0 schedule IH]; intros w Hp.
  - cbn. lia.
  - change (run base spectre (c0 :: schedule) w)
      with (run base spectre schedule (step base spectre c0 w)).
    destruct (step_private c0 w Hp) as [Hp' Hless].
    specialize (IH _ Hp').
    destruct (Nat.eq_dec c0 c) as [->|Hne].
    + rewrite count_occ_cons_eq by reflexivity. lia.
    + rewrite count_occ_cons_neq by exact Hne.
      assert (Hsame : left_to_do c (step base spectre c0 w) = left_to_do c w)
        by (unfold left_to_do; rewrite step_other by congruence; reflexivity).
      lia.
Qed.

(** X16.  The descriptor lock of [processor_init] is never contended.
    Start with every core at the entry of [processor_init] and let
    their statements interleave in any order, for any number of steps.
    Then no two cores ever hold the same descriptor (each one holds the
    one [dynalloc] gave it), and whenever a core stands at
    [CPU_INFO_LOCK(cur_cpu)] the lock it asks for is free: the lock
    serialises nothing between cores. *)
Theorem descriptors_private (schedule : list nat) (w : world) :
  Forall (fun k => at_pc k = L_dynalloc) (cores w) ->
  let w' := run base spectre schedule w in
  (forall c c' k k' a,
     cores w' !! c = Some k -> cores w' !! c' = Some k' ->
     owns k = Some a -> owns k' = Some a -> c = c') /\
  (forall c k,
     cores w' !! c = Some k -> at_pc k = L_lock ->
     exists d, deref (cur_cpu k) w' = Some d /\ lock d = false).
Proof.
  intros Hall. cbv zeta.
  destruct (run_private schedule w (entering_private w Hall))
    as (Hcore & Hcell & Hone).
  split; [exact Hone|].
  intros c k Hk Hpc.
  destruct (Hcore c k Hk) as [Hneed _].
  rewrite Hpc in Hneed. destruct (Hneed eq_refl) as [a Ha].
  assert (Hown : owns k = Some a)
    by (rewrite owns_past_dynalloc; [exact Ha|rewrite Hpc; discriminate]).
  pose proof (Hcell c k a Hk Hown) as Hc.
  unfold cell_ok in Hc. rewrite Hpc in Hc. cbn [expected] in Hc.
  destruct Hc as (d & Hd & Hl & _).
  exists d. rewrite Ha. unfold deref. rewrite Hd. split; [reflexivity|exact Hl].
Qed.

(** X17.  What holds of a core once it has returned from
    [processor_init], whatever the other cores did in the meantime and
    wherever they are: its interrupts are enabled, and its descriptor
    is unlocked and has its task-state segment. *)
Theorem returned_core (schedule : list nat) (w : world) (c : nat) (k : core) :
  Forall (fun k => at_pc k = L_dynalloc) (cores w) ->
  cores (run base spectre schedule w) !! c = Some k ->
  at_pc k = L_done ->
  intr_on k = true /\
  exists d, deref (cur_cpu k) (run base spectre schedule w) = Some d /\
            lock d = false /\ tss d = true.
Proof.
  intros Hall Hk Hpc.
  destruct (run_private schedule w (entering_private w Hall))
    as (Hcore & Hcell & _).
  destruct (Hcore c k Hk) as [Hneed Hio].
  split; [exact (Hio Hpc)|].
  rewrite Hpc in Hneed. destruct (Hneed eq_refl) as [a Ha].
  assert (Hown : owns k = Some a)
    by (rewrite owns_past_dynalloc; [exact Ha|rewrite Hpc; discriminate]).
  pose proof (Hcell c k a Hk Hown) as Hc.
  unfold cell_ok in Hc. rewrite Hpc in Hc. cbn [expected] in Hc.
  destruct Hc as (d & Hd & Hl & Ht).
  exists d. rewrite Ha. unfold deref. rewrite Hd. repeat split; assumption.
Qed.

(** X18.  [processor_init] never waits for another core.  From
    every core at its entry, in any interleaving: a core that has been
    given 25 steps has returned or has halted in [panic], however often
    and in whatever order the other cores ran in between.  (Statements
    are counted; the calls into the rest of the kernel are taken to
    return.) *)
Theorem processor_init_wait_free (schedule : list nat) (w : world)
    (c : nat) (k : core) :
  Forall (fun k => at_pc k = L_dynalloc) (cores w) ->
  (25 <= count_occ Nat.eq_dec schedule c)%nat ->
  cores (run base spectre schedule w) !! c = Some k ->
  at_pc k = L_done \/ at_pc k = L_halted.
Proof.
  intros Hall Hcount Hk.
  pose proof (run_left_to_do schedule w c (entering_private w Hall)) as Hleft.
  assert (Hmax : (left_to_do c w <= 25)%nat).
  { unfold left_to_do. destruct (cores w !! c) as [k0|]; [|lia].
    destruct (at_pc k0); cbn; lia. }
  unfold left_to_do at 1 in Hleft. rewrite Hk in Hleft.
  destruct (at_pc k); cbn [remaining] in Hleft; auto; lia.
Qed.




Lemma step_sse_test c w k :
  cores w !! c = Some k ->
  at_pc k = L_sse_test ->
  is_sse_supported (cpuid_edx k) = true ->
  step base spectre c w = set_cores (<[c := goto L_cr0_read k]> (cores w)) w.
Proof.
  intros Hk Hpc Hsse. unfold step. rewrite Hk.
  unfold statement. now rewrite Hpc, Hsse.
Qed.

Lemma run_one c w : run base spectre [c] w = step base spectre c w.
Proof. reflexivity. Qed.

(** *** Two interleavings of two cores

    Both cores have the SSE bits; what they hold in CR0 and CR4 at entry
    is arbitrary.  Statements take effect one at a time, in the order
    of the schedule. *)

(** X20.  [reg_tmp] is a function static, so the cores share it.  Core
    0 runs up to its write of CR0 and core 1 up to and including its
    read of CR4; then core 0 goes on to its return, and core 1 after
    it.  Both return, and core 0 has loaded CR0 with what core 1 had in
    CR4 at entry, while core 1 has loaded CR4 from core 0's. *)
Theorem reg_tmp_shared edx0 edx1 a0 a4 b0 b4 :
  is_sse_supported edx0 = true -> is_sse_supported edx1 = true ->
  let w := run base spectre
             (replicate 8 0%nat ++ replicate 10 1%nat
              ++ replicate 17 0%nat ++ replicate 15 1%nat)
             (boot [entering edx0 a0 a4; entering edx1 b0 b4] 2) in
  all_done w = true /\
  core_cr0 <$> cores w !! 0%nat = Some b4 /\
  core_cr4 <$> cores w !! 1%nat
    = Some (Z.lor (Z.lor a4 (Z.shiftl 3 9)) (Z.shiftl 3 9)).
Proof.
  intros H0 H1. cbv zeta.
  change (replicate 8 0%nat ++ replicate 10 1%nat
          ++ replicate 17 0%nat ++ replicate 15 1%nat)
    with (replicate 4 0%nat ++ [0%nat] ++ replicate 3 0%nat
          ++ replicate 4 1%nat ++ [1%nat] ++ replicate 5 1%nat
          ++ replicate 17 0%nat ++ replicate 15 1%nat).
  rewrite !run_app, !run_one.
  set (W0 := boot [entering edx0 a0 a4; entering edx1 b0 b4] 2).
  rewrite (step_sse_test 0%nat (run base spectre (replicate 4 0%nat) W0)
             (Core L_sse_test (Some 0%nat) (Some 0%nat) edx0 a0 a4 false)
             eq_refl eq_refl H0).
  match goal with
  | |- context [step base spectre 1 ?w] =>
      rewrite (step_sse_test 1%nat w
                 (Core L_sse_test (Some 1%nat) (Some 1%nat) edx1 b0 b4 false)
                 eq_refl eq_refl H1)
  end.
  destruct spectre; repeat split; reflexivity.
Qed.

(** X21.  A flag is set before the work it stands for is done.  Core
    0 runs until it has set [INIT_FLAG_ACPI] and stands before
    [acpi_parse_madt]; core 1 then runs [processor_init] from entry to
    return, and core 0 finishes.  Core 1 finds the flag set and skips
    the parse: it initialises the I/O APIC and its local APIC before the
    MADT has been parsed at all, and the controller base it records in
    its descriptor is the one from before the parse (0 at boot), not the
    one the MADT reports. *)
Theorem lapic_base_before_parse edx0 edx1 a0 a4 b0 b4 :
  is_sse_supported edx0 = true -> is_sse_supported edx1 = true ->
  let w := run base spectre
             (replicate 16 0%nat ++ alone 1 ++ replicate 7 0%nat)
             (boot [entering edx0 a0 a4; entering edx1 b0 b4] 2) in
  all_done w = true /\
  heap w = [Some {| lock := false; lapic_base := base; tss := true |};
            Some {| lock := false; lapic_base := 0; tss := true |}] /\
  trace w = [EvTssLoad 0; EvTssLoad 1; EvIoapicInit 1; EvLapicInit 1]
            ++ (if spectre then [EvSpectreMitigate 1] else [])
            ++ [EvMadtParse 0; EvLapicInit 0]
            ++ (if spectre then [EvSpectreMitigate 0] else []).
Proof.
  intros H0 H1. cbv zeta.
  change (replicate 16 0%nat ++ alone 1 ++ replicate 7 0%nat)
    with (replicate 4 0%nat ++ [0%nat] ++ replicate 11 0%nat
          ++ replicate 4 1%nat ++ [1%nat] ++ replicate 20 1%nat
          ++ replicate 7 0%nat).
  rewrite !run_app, !run_one.
  set (W0 := boot [entering edx0 a0 a4; entering edx1 b0 b4] 2).
  rewrite (step_sse_test 0%nat (run base spectre (replicate 4 0%nat) W0)
             (Core L_sse_test (Some 0%nat) (Some 0%nat) edx0 a0 a4 false)
             eq_refl eq_refl H0).
  match goal with
  | |- context [step base spectre 1 ?w] =>
      rewrite (step_sse_test 1%nat w
                 (Core L_sse_test (Some 1%nat) (Some 1%nat) edx1 b0 b4 false)
                 eq_refl eq_refl H1)
  end.
  destruct spectre; repeat split; reflexivity.
Qed.

End Interleavings.

(** *** Two cores entering together *)

(** A core with SSE and SSE2 (EDX bits 25 and 26) about to call
    [processor_init]. *)
Definition sse_capable : core := entering 0x06000000 0x80000011 0x20.

(** Core 0 runs up to and including its test of [INIT_FLAG_ACPI], then
    core 1 does the same; after that each runs to its return. *)
Definition both_pass_the_test : list nat :=
  replicate 15 0%nat ++ replicate 15 1%nat.

Definition race : list nat :=
  both_pass_the_test ++ replicate 10 0%nat ++ replicate 8 1%nat.

(** C1 does not hold of [processor_init] as stated: two cores that enter
    together can both find [INIT_FLAG_ACPI] clear, each holding the lock
    of its own descriptor (descriptors 0 and 1), and the MADT is then
    parsed twice by the time both have returned. *)
Lemma discovery_race_two_cores :
  let w0 := boot [sse_capable; sse_capable] 2 in
  locks_held (run 0xFEE00000 false both_pass_the_test w0) = [0%nat; 1%nat] /\
  all_done (run 0xFEE00000 false race w0) = true /\
  madt_parses (run 0xFEE00000 false race w0) = 2%nat.
Proof. cbv zeta. repeat split; vm_compute; reflexivity. Qed.

(** Three cores; core 0 first and alone, then cores 1 and 2 in
    lock-step. *)
Lemma discovery_once_after_first_core_witness :
  let w := run 0xFEE00000 true (concat (replicate 25 [1%nat; 2%nat]))
             (run 0xFEE00000 true (alone 0)
                (boot [sse_capable; sse_capable; sse_capable] 3)) in
  all_done w = true /\ madt_parses w = 1%nat /\ ioapic_inits w = 1%nat.
Proof.
  cbv zeta. split; [reflexivity|].
  apply (discovery_once_after_first_core 0xFEE00000 true
           sse_capable [sse_capable; sse_capable] 3).
  - reflexivity.
  - repeat constructor.
  - reflexivity.
  - lia.
Defined.

(** A core without the SSE bits, alone: one [panic], its descriptor
    allocated, nothing else. *)
Lemma processor_init_alone_halts_witness :
  let k := entering 0 0x80000011 0x20 in
  let w' := run 0xFEE00000 true (alone 0) (boot [k] 1) in
  trace w' = [EvPanic 0] /\ init_flags w' = 0 /\ heap w' = [Some zeroed].
Proof.
  cbv zeta.
  destruct (processor_init_alone_halts 0xFEE00000 true 0
              (entering 0 0x80000011 0x20)
              (boot [entering 0 0x80000011 0x20] 1))
    as (_ & Htrace & Hflags & _ & Hheap).
  - reflexivity.
  - reflexivity.
  - right. reflexivity.
  - split; [exact Htrace|]. split; [exact Hflags|exact Hheap].
Defined.

(** The second of two cores, after the first has returned: its
    descriptor is the second of the heap and carries the base the first
    core found. *)
Lemma processor_init_alone_returns_witness :
  let w := run 0xFEE00000 true (alone 0) (boot [sse_capable; sse_capable] 2) in
  let w' := run 0xFEE00000 true (alone 1) w in
  heap w' !! 1%nat
  = Some (Some {| lock := false; lapic_base := 0xFEE00000; tss := true |}) /\
  init_flags w' = 3.
Proof.
  cbv zeta.
  destruct (processor_init_alone_returns 0xFEE00000 true 1 sse_capable
              (run 0xFEE00000 true (alone 0)
                 (boot [sse_capable; sse_capable] 2)))
    as (_ & Hheap & Hflags & _).
  - reflexivity.
  - reflexivity.
  - vm_compute. lia.
  - reflexivity.
  - rewrite Hheap, Hflags. split; reflexivity.
Defined.

(** The same second core: both flags are set when it enters, so it
    loads its task-state segment, initialises its local APIC and calls
    the Spectre hook, and discovers nothing. *)
Lemma processor_init_alone_calls_witness :
  let w := run 0xFEE00000 true (alone 0) (boot [sse_capable; sse_capable] 2) in
  let w' := run 0xFEE00000 true (alone 1) w in
  trace w' = trace w ++ [EvTssLoad 1; EvLapicInit 1; EvSpectreMitigate 1] /\
  acpi_lapic_base w' = 0xFEE00000.
Proof.
  cbv zeta.
  destruct (processor_init_alone_calls 0xFEE00000 true 1 sse_capable
              (run 0xFEE00000 true (alone 0)
                 (boot [sse_capable; sse_capable] 2)))
    as (Htrace & Hbase).
  - reflexivity.
  - reflexivity.
  - vm_compute. lia.
  - reflexivity.
  - rewrite Htrace, Hbase. split; reflexivity.
Defined.

(** Two cores in the schedule of [race], stopped when both stand at
    the test of [INIT_FLAG_ACPI]. *)
Lemma descriptors_private_witness :
  let w' := run 0xFEE00000 false both_pass_the_test
              (boot [sse_capable; sse_capable] 2) in
  (forall c c' k k' a,
     cores w' !! c = Some k -> cores w' !! c' = Some k' ->
     owns k = Some a -> owns k' = Some a -> c = c') /\
  (forall c k,
     cores w' !! c = Some k -> at_pc k = L_lock ->
     exists d, deref (cur_cpu k) w' = Some d /\ lock d = false).
Proof.
  apply (descriptors_private 0xFEE00000 false both_pass_the_test
           (boot [sse_capable; sse_capable] 2)).
  repeat constructor.
Defined.

(** Core 1 at the end of [race]. *)
Lemma returned_core_witness :
  let w' := run 0xFEE00000 false race (boot [sse_capable; sse_capable] 2) in
  match cores w' !! 1%nat with
  | Some k =>
      at_pc k = L_done /\ intr_on k = true /\
      exists d, deref (cur_cpu k) w' = Some d /\ lock d = false /\ tss d = true
  | None => False
  end.
Proof.
  cbv zeta.
  destruct (cores (run 0xFEE00000 false race
                     (boot [sse_capable; sse_capable] 2)) !! 1%nat)
    as [k|] eqn:Hk; [|vm_compute in Hk; discriminate Hk].
  assert (Hpc : at_pc k = L_done)
    by (vm_compute in Hk; injection Hk as <-; reflexivity).
  split; [exact Hpc|].
  apply (returned_core 0xFEE00000 false race
           (boot [sse_capable; sse_capable] 2) 1 k);
    [repeat constructor | exact Hk | exact Hpc].
Defined.

(** Two cores in lock-step, 25 steps each. *)
Lemma processor_init_wait_free_witness :
  let w' := run 0xFEE00000 false (concat (replicate 25 [0%nat; 1%nat]))
              (boot [sse_capable; sse_capable] 2) in
  match cores w' !! 0%nat with
  | Some k => at_pc k = L_done \/ at_pc k = L_halted
  | None => False
  end.
Proof.
  cbv zeta.
  destruct (cores (run 0xFEE00000 false (concat (replicate 25 [0%nat; 1%nat]))
                     (boot [sse_capable; sse_capable] 2)) !! 0%nat)
    as [k|] eqn:Hk; [|vm_compute in Hk; discriminate Hk].
  apply (processor_init_wait_free 0xFEE00000 false
           (concat (replicate 25 [0%nat; 1%nat]))
           (boot [sse_capable; sse_capable] 2) 0 k);
    [repeat constructor | vm_compute; lia | exact Hk].
Defined.

(** Two cores with CR0 = 0x80000011 and CR4 = 0x20 (core 0) and CR0 =
    0x80000033 and CR4 = 0x6A0 (core 1). *)
Lemma reg_tmp_shared_witness :
  let w := run 0xFEE00000 false
             (replicate 8 0%nat ++ replicate 10 1%nat
              ++ replicate 17 0%nat ++ replicate 15 1%nat)
             (boot [entering 0x06000000 0x80000011 0x20;
                    entering 0x06000000 0x80000033 0x6A0] 2) in
  all_done w = true /\
  core_cr0 <$> cores w !! 0%nat = Some 0x6A0 /\
  core_cr4 <$> cores w !! 1%nat = Some 0x620.
Proof.
  apply (reg_tmp_shared 0xFEE00000 false 0x06000000 0x06000000
           0x80000011 0x20 0x80000033 0x6A0); reflexivity.
Defined.

Lemma lapic_base_before_parse_witness :
  let w := run 0xFEE00000 false
             (replicate 16 0%nat ++ alone 1 ++ replicate 7 0%nat)
             (boot [sse_capable; sse_capable] 2) in
  all_done w = true /\
  heap w = [Some {| lock := false; lapic_base := 0xFEE00000; tss := true |};
            Some {| lock := false; lapic_base := 0; tss := true |}] /\
  trace w = [EvTssLoad 0; EvTssLoad 1; EvIoapicInit 1; EvLapicInit 1;
             EvMadtParse 0; EvLapicInit 0].
Proof.
  apply (lapic_base_before_parse 0xFEE00000 false 0x06000000 0x06000000
           0x80000011 0x20 0x80000011 0x20); reflexivity.
Defined.

End Smp.